(** * Profile Port Watcher: the watcher loop and the profile table

    A shallow embedding of [auto profiler/autoprofile.py]: the configuration
    constants, [safe_get_foreground_process], [send_port_async],
    [ProfileModel], the profile dictionary of [ProfilePortWatcherApp] with the
    operations that change it, and [_watcher_loop].  The window, the tray,
    the icons, the localized texts and the log lines are left out.

    Python values are modelled as follows.
    - A value that is [None] or a [str] is an [option string]; it is truthy
      when it is a non-empty string.
    - Window handles and process ids are Python [int]s, here [Z]; [0] is the
      falsy one.
    - A call into the operating system or a library either returns or raises;
      it is a value of [Res].  Every exception considered is a subclass of
      [Exception] (what [except Exception] catches).
    - [self.profiles] is a [dict]; iteration follows insertion order, so the
      dictionary is an association list and assignment to an existing key
      keeps the key's position.
    - Durations are in milliseconds.

    The loop runs in a thread of its own.  What it meets from outside is
    given to it tick by tick: whether the stop event is set, what the
    interface did to the profiles in the meantime, and what the calls of
    this iteration return or raise. *)

From Stdlib Require Import ZArith List Sorted Ascii String Bool Lia.
From Stdlib Require Import DecimalString.
Import ListNotations.
Local Open Scope Z_scope.
Local Open Scope string_scope.

(** ** Python values *)

Definition truthy (v : option string) : bool :=
  match v with
  | Some s => negb (s =? "")
  | None => false
  end.

Definition opt_eqb (a b : option string) : bool :=
  match a, b with
  | Some x, Some y => (x =? y)
  | None, None => true
  | _, _ => false
  end.

Definition hwnd_eqb (a b : option Z) : bool :=
  match a, b with
  | Some x, Some y => (x =? y)%Z
  | None, None => true
  | _, _ => false
  end.

(** Exceptions and the result of a call that may raise. *)
Inductive Exn : Type :=
| AccessDenied      (* psutil.AccessDenied *)
| NoSuchProcess     (* psutil.NoSuchProcess *)
| OtherException.   (* any other subclass of Exception *)

Inductive Res (A : Type) : Type :=
| Ret (a : A)
| Raise (e : Exn).
Arguments Ret {A} a.
Arguments Raise {A} e.

Definition bind {A B : Type} (m : Res A) (k : A -> Res B) : Res B :=
  match m with
  | Ret a => k a
  | Raise e => Raise e
  end.

Notation "x <- m ;; k" := (bind m (fun x => k))
  (at level 61, m at next level, right associativity).

(** [try: body / except Exception: handler]. *)
Definition try_except {A : Type} (body : Res A) (handler : Exn -> A) : A :=
  match body with
  | Ret a => a
  | Raise e => handler e
  end.

(** Dictionaries with integer keys, in insertion order. *)
Section Dict.
Context {V : Type}.

Fixpoint dict_get (d : list (Z * V)) (k : Z) : option V :=
  match d with
  | [] => None
  | (k', v) :: d' => if (k' =? k)%Z then Some v else dict_get d' k
  end.

(** [d[k] = v]: an existing key keeps its position, a new key goes last. *)
Fixpoint dict_set (d : list (Z * V)) (k : Z) (v : V) : list (Z * V) :=
  match d with
  | [] => [(k, v)]
  | (k', v') :: d' =>
      if (k' =? k)%Z then (k, v) :: d' else (k', v') :: dict_set d' k v
  end.

Definition keys (d : list (Z * V)) : list Z := map fst d.
End Dict.

(** ** Configuration *)

Definition CHECK_INTERVAL : Z := 250.        (* 0.25 seconds *)
Definition RECOVERY_SLEEP : Z := 500.        (* time.sleep(0.5) in the handler *)

Definition PROFILE_PORTS : list (Z * string) :=
  [(1, "2s"); (2, "3s"); (3, "4s"); (4, "5s")]%Z.
Definition FALLBACK_PORT : string := "1s".

(** ** The operating system and the network, as one poll sees them *)

Record OS : Type := {
  GetForegroundWindow : Res Z;              (* win32gui: hwnd, 0 when none *)
  GetWindowThreadProcessId : Z -> Res Z;    (* win32process: the pid of hwnd *)
  Process : Z -> Res unit;                  (* psutil.Process(pid) *)
  exe : Z -> Res string;                    (* proc.exe() of the process pid *)
  Thread_start : Res unit;                  (* threading.Thread(...).start() *)
  requests_post : Res unit                  (* requests.post(URL, ...) *)
}.

(** ** Sample library functions, for the concrete examples *)

(** Lower case of the letters [A]-[Z]; other characters are kept. *)
Definition lower_ascii_char (c : Ascii.ascii) : Ascii.ascii :=
  let n := Ascii.nat_of_ascii c in
  if ((65 <=? n) && (n <=? 90))%nat then Ascii.ascii_of_nat (n + 32) else c.

Fixpoint lower_ascii (s : string) : string :=
  match s with
  | EmptyString => EmptyString
  | String c s' => String (lower_ascii_char c) (lower_ascii s')
  end.

(** The part of a path after its last backslash or slash. *)
Fixpoint last_component (acc s : string) : string :=
  match s with
  | EmptyString => acc
  | String c s' =>
      if (Ascii.eqb c "\" || Ascii.eqb c "/")%char
      then last_component EmptyString s'
      else last_component (acc ++ String c EmptyString) s'
  end.

Definition basename_nt (path : string) : string :=
  last_component EmptyString path.

(** [os.path.basename] and [str.lower] belong to Python's library; the
    development holds for whatever functions they are. *)
Class Library : Type := {
  basename : string -> string;
  lower : string -> string
}.

Section Watcher.

Context {lib : Library}.

(** ** Utilities *)

(** [proc.exe()] inside its [try] with
    [except (psutil.AccessDenied, psutil.NoSuchProcess)]: the handled
    exceptions give [None], any other one propagates. *)
Definition exe_or_denied (os : OS) (pid : Z) : Res (option string) :=
  match exe os pid with
  | Ret exe_path => Ret (Some exe_path)
  | Raise AccessDenied => Ret None
  | Raise NoSuchProcess => Ret None
  | Raise e => Raise e
  end.

(** The body of the [try] of [safe_get_foreground_process]. *)
Definition get_foreground_process_body (os : OS)
  : Res (option string * option string) :=
  hwnd <- GetForegroundWindow os ;;
  if (hwnd =? 0)%Z then Ret (None, None) else
  pid <- GetWindowThreadProcessId os hwnd ;;
  if (pid =? 0)%Z then Ret (None, None) else
  _ <- Process os pid ;;
  r <- exe_or_denied os pid ;;
  match r with
  | None => Ret (None, None)
  | Some exe_path => Ret (Some (lower (basename exe_path)), Some exe_path)
  end.

(** [safe_get_foreground_process]: the body under [except Exception].  The
    result is a [Res] so that "does not raise" is a statement about it. *)
Definition safe_get_foreground_process (os : OS)
  : Res (option string * option string) :=
  match get_foreground_process_body os with
  | Ret r => Ret r
  | Raise _ => Ret (None, None)
  end.

(** [send_port_async]: starts the sender thread.  The thread's own body
    catches every exception of the POST, so only the start can raise. *)
Definition send_port_async (os : OS) (port : option string) : Res unit :=
  Thread_start os.

(** ** Profile model *)

Record ProfileModel : Type := {
  idx : Z;
  exe_name : option string;
  exe_path : option string
}.

(** [ProfileModel(idx)]. *)
Definition new_profile (i : Z) : ProfileModel :=
  {| idx := i; exe_name := None; exe_path := None |}.

Definition is_assigned (pm : ProfileModel) : bool :=
  truthy (exe_name pm) && truthy (exe_path pm).

(** [assign]; the icon fields serve the display only and are left out. *)
Definition assign (pm : ProfileModel) (name path : option string)
  : ProfileModel :=
  {| idx := idx pm;
     exe_name := if truthy name then option_map lower name else None;
     exe_path := path |}.

Definition clear (pm : ProfileModel) : ProfileModel :=
  {| idx := idx pm; exe_name := None; exe_path := None |}.

(** An entry of the configuration file: [d.get("exe_name")] and
    [d.get("exe_path")], [None] for a missing key as for a null. *)
Record ConfigEntry : Type := {
  cfg_exe_name : option string;
  cfg_exe_path : option string
}.

Definition to_dict (pm : ProfileModel) : ConfigEntry :=
  {| cfg_exe_name := exe_name pm; cfg_exe_path := exe_path pm |}.

(** [from_dict].  Its [except] branch serves a name that is not a string,
    on which [assign] raises; with names that are strings or [None],
    [assign] returns. *)
Definition from_dict (i : Z) (d : ConfigEntry) : ProfileModel :=
  if truthy (cfg_exe_path d)
  then assign (new_profile i) (cfg_exe_name d) (cfg_exe_path d)
  else new_profile i.

(** ** The profile dictionary of the application *)

Definition Profiles : Type := list (Z * ProfileModel).

(** [{i: ProfileModel(i) for i in range(1, 5)}]. *)
Definition initial_profiles : Profiles :=
  map (fun i => (i, new_profile i)) [1; 2; 3; 4]%Z.

(** [self.profiles[i].method(...)]: the object under key [i] is changed in
    place; a missing key raises [KeyError] and changes nothing. *)
Definition on_profile (profiles : Profiles) (i : Z)
    (f : ProfileModel -> ProfileModel) : Profiles :=
  match dict_get profiles i with
  | Some pm => dict_set profiles i (f pm)
  | None => profiles
  end.

(** What the interface does to the dictionary. *)
Inductive GuiOp : Type :=
| AssignByExe (i : Z) (path : string)      (* the path the file dialog gave *)
| AssignByClick (i : Z) (os : OS)          (* the system when the countdown ends *)
| ClearProfile (i : Z)
| LoadProfile (i : Z) (d : ConfigEntry).   (* _load_profiles_from_config, slot i *)

Definition assign_by_exe (profiles : Profiles) (i : Z) (path : string)
  : Profiles :=
  if (path =? "") then profiles
  else on_profile profiles i
         (fun pm => assign pm (Some (lower (basename path))) (Some path)).

Definition assign_by_click (profiles : Profiles) (i : Z) (os : OS)
  : Profiles :=
  match safe_get_foreground_process os with
  | Ret (name, path) =>
      if truthy name && truthy path
      then on_profile profiles i (fun pm => assign pm name path)
      else profiles
  | Raise _ => profiles
  end.

Definition clear_profile (profiles : Profiles) (i : Z) : Profiles :=
  on_profile profiles i clear.

(** One slot of [_load_profiles_from_config]: [for i in range(1, 5)],
    [self.profiles[i] = ProfileModel.from_dict(i, d)].  The application
    loads when it is constructed; here a load may come at any time. *)
Definition load_profile (profiles : Profiles) (i : Z) (d : ConfigEntry)
  : Profiles :=
  if ((1 <=? i) && (i <? 5))%Z
  then dict_set profiles i (from_dict i d)
  else profiles.

Definition gui_step (profiles : Profiles) (op : GuiOp) : Profiles :=
  match op with
  | AssignByExe i path => assign_by_exe profiles i path
  | AssignByClick i os => assign_by_click profiles i os
  | ClearProfile i => clear_profile profiles i
  | LoadProfile i d => load_profile profiles i d
  end.

Definition gui_steps (profiles : Profiles) (ops : list GuiOp) : Profiles :=
  fold_left gui_step ops profiles.

(** ** The application and its watcher *)

(** The attributes of [ProfilePortWatcherApp] that the watcher reads or
    writes.  [__init__] sets both cache attributes to [None]. *)
Record App : Type := {
  profiles : Profiles;
  _last_hwnd : option Z;
  _last_fg_exe : option string
}.

Definition init_app (loaded : Profiles) : App :=
  {| profiles := loaded; _last_hwnd := None; _last_fg_exe := None |}.

Definition set_cache (self : App) (h : option Z) (e : option string) : App :=
  {| profiles := profiles self; _last_hwnd := h; _last_fg_exe := e |}.

Definition set_profiles (self : App) (p : Profiles) : App :=
  {| profiles := p; _last_hwnd := _last_hwnd self;
     _last_fg_exe := _last_fg_exe self |}.

(** [hwnd = win32gui.GetForegroundWindow()], [None] when the call raises. *)
Definition foreground_hwnd (os : OS) : option Z :=
  try_except (h <- GetForegroundWindow os ;; Ret (Some h)) (fun _ => None).

(** [if hwnd:] *)
Definition hwnd_truthy (hwnd : option Z) : bool :=
  match hwnd with
  | Some h => negb (h =? 0)%Z
  | None => false
  end.

(** The body of the [try] that resolves a changed window (the pid, the
    process, its executable), with the inner handler for a denied or
    vanished process. *)
Definition lookup_fg_exe (os : OS) (hwnd : Z) : Res (option string) :=
  pid <- GetWindowThreadProcessId os hwnd ;;
  if (pid =? 0)%Z then Ret None else
  _ <- Process os pid ;;
  r <- exe_or_denied os pid ;;
  Ret (option_map (fun exe_path => lower (basename exe_path)) r).

(** The same under its [except Exception]: every failure gives [None]. *)
Definition resolve_fg_exe (os : OS) (hwnd : Z) : option string :=
  try_except (lookup_fg_exe os hwnd) (fun _ => None).

(** The first part of an iteration: the foreground window and the cache.
    Returns the application, [fg_exe], and whether the process was resolved
    on this tick.  (Both cache attributes exist since [__init__], so the
    [hasattr] guards do nothing.) *)
Definition poll_foreground (self : App) (os : OS)
  : App * option string * bool :=
  let hwnd := foreground_hwnd os in
  if hwnd_truthy hwnd then
    if negb (hwnd_eqb hwnd (_last_hwnd self)) then
      let fg_exe :=
        match hwnd with
        | Some h => resolve_fg_exe os h
        | None => None
        end in
      (set_cache self hwnd fg_exe, fg_exe, true)
    else
      (self, _last_fg_exe self, false)
  else
    (set_cache self None None, None, false).

(** [for idx, pm in self.profiles.items(): if pm.is_assigned() and
    pm.exe_name == fg_exe: ...; break]: the key of the first match. *)
Fixpoint first_match (items : Profiles) (fg_exe : string) : option Z :=
  match items with
  | [] => None
  | (i, pm) :: rest =>
      if is_assigned pm && opt_eqb (exe_name pm) (Some fg_exe)
      then Some i
      else first_match rest fg_exe
  end.

(** The slot the loop stops at, under [if fg_exe:]. *)
Definition match_slot (items : Profiles) (fg_exe : option string)
  : option Z :=
  match fg_exe with
  | Some name => if truthy fg_exe then first_match items name else None
  | None => None
  end.

(** [selected_port]: [PROFILE_PORTS.get(idx)] of the matched slot. *)
Definition select_port (items : Profiles) (fg_exe : option string)
  : option string :=
  match match_slot items fg_exe with
  | Some i => dict_get PROFILE_PORTS i
  | None => None
  end.

(** The last part of an iteration: send when the port changed.  Returns
    the port handed to a sender thread, if any, and the new [last_sent];
    raises when the thread cannot be started, before [last_sent] is
    assigned.  (The status text put on the queue repeats the port sent and
    is left out.) *)
Definition notify (os : OS) (selected_port last_sent : option string)
  : Res (option string * option string) :=
  if truthy selected_port then
    if negb (opt_eqb selected_port last_sent) then
      _ <- send_port_async os selected_port ;;
      Ret (selected_port, selected_port)
    else Ret (None, last_sent)
  else
    if negb (opt_eqb last_sent (Some FALLBACK_PORT)) then
      _ <- send_port_async os (Some FALLBACK_PORT) ;;
      Ret (Some FALLBACK_PORT, Some FALLBACK_PORT)
    else Ret (None, last_sent).

(** What one iteration did. *)
Record IterLog : Type := {
  hwnd_seen : option Z;            (* hwnd *)
  resolver_called : bool;          (* the process of hwnd was looked up *)
  fg_exe_seen : option string;     (* fg_exe *)
  selected_port : option string;   (* selected_port *)
  sent : option string;            (* the port given to a sender thread *)
  posted : bool;                   (* that thread's POST succeeded *)
  caught : option Exn;             (* the exception the outer handler logged *)
  slept : Z                        (* the argument of time.sleep *)
}.

(** The state of a running loop: the application object and the local
    variable [last_sent]. *)
Record Loop : Type := {
  self : App;
  last_sent : option string
}.

Definition post_succeeds (os : OS) : bool :=
  match requests_post os with
  | Ret _ => true
  | Raise _ => false
  end.

(** One iteration of [while not self.watcher_stop_event.is_set()]: the
    body under its [except Exception], which logs and sleeps longer.  What
    the body assigned before the exception stays assigned. *)
Definition iteration (st : Loop) (os : OS) : Loop * IterLog :=
  let '(self1, fg_exe, resolved) := poll_foreground (self st) os in
  let port := select_port (profiles self1) fg_exe in
  match notify os port (last_sent st) with
  | Ret (out, last_sent1) =>
      ({| self := self1; last_sent := last_sent1 |},
       {| hwnd_seen := foreground_hwnd os; resolver_called := resolved;
          fg_exe_seen := fg_exe; selected_port := port;
          sent := out;
          posted := match out with
                    | Some _ => post_succeeds os
                    | None => false
                    end;
          caught := None; slept := CHECK_INTERVAL |})
  | Raise e =>
      ({| self := self1; last_sent := last_sent st |},
       {| hwnd_seen := foreground_hwnd os; resolver_called := resolved;
          fg_exe_seen := fg_exe; selected_port := port;
          sent := None; posted := false;
          caught := Some e; slept := RECOVERY_SLEEP |})
  end.

(** What the loop meets each time it tests the stop event: whether the
    event is set, what the interface did to the profiles since the previous
    test, and the system as this iteration sees it. *)
Record Tick : Type := {
  stop_is_set : bool;
  gui : list GuiOp;
  system : OS
}.

(** The loop state once the interface's changes up to a tick are in. *)
Definition meet (st : Loop) (tk : Tick) : Loop :=
  {| self := set_profiles (self st)
               (gui_steps (profiles (self st)) (gui tk));
     last_sent := last_sent st |}.

(** The [while] loop over the ticks it meets; it ends at the first tick
    with the stop event set (the list ending is the end of observation). *)
Fixpoint watcher_iterations (st : Loop) (world : list Tick)
  : Loop * list IterLog :=
  match world with
  | [] => (st, [])
  | tk :: world' =>
      let st0 := meet st tk in
      if stop_is_set tk then (st0, [])
      else
        let '(st1, log) := iteration st0 (system tk) in
        let '(st2, logs) := watcher_iterations st1 world' in
        (st2, log :: logs)
  end.

(** [_watcher_loop]: [last_sent = None], then the loop.  The thread that
    [start_watcher] starts runs this; the application object it leaves is
    the one a later [start_watcher] runs it on. *)
Definition _watcher_loop (app : App) (world : list Tick)
  : App * list IterLog :=
  let '(st, logs) :=
    watcher_iterations {| self := app; last_sent := None |} world in
  (self st, logs).

(** The code an iteration settled on: the selected port, or the fallback. *)
Definition code_of (port : option string) : string :=
  match port with
  | Some p => if truthy port then p else FALLBACK_PORT
  | None => FALLBACK_PORT
  end.

(** ** What the claims are stated with *)

(** Slot [k] of the dictionary is assigned and its name is [fg_exe]: the
    test of the loop, at one key. *)
Definition slot_matches (items : Profiles) (k : Z) (fg_exe : option string)
  : bool :=
  match dict_get items k with
  | Some pm =>
      truthy fg_exe && is_assigned pm && opt_eqb (exe_name pm) fg_exe
  | None => false
  end.

(** Two dictionaries that differ at most in the paths stored in assigned
    slots: slot by slot, either the same profile, or two assigned profiles
    of the same name. *)
Definition same_but_path (a b : Z * ProfileModel) : Prop :=
  fst a = fst b /\
  (snd a = snd b \/
   (exe_name (snd a) = exe_name (snd b) /\
    is_assigned (snd a) = true /\ is_assigned (snd b) = true)).

Definition differ_only_in_paths (t1 t2 : Profiles) : Prop :=
  Forall2 same_but_path t1 t2.

(** The keys of the profile dictionary. *)
Definition slots : list Z := [1; 2; 3; 4]%Z.

(** The test of the matching loop for one profile. *)
Definition loop_test (pm : ProfileModel) (name : string) : bool :=
  is_assigned pm && opt_eqb (exe_name pm) (Some name).

(** The debounce rule in the spec's words: a code is dispatched when it
    differs from the last code sent, and is then the last code sent. *)
Fixpoint debounce (last : option string) (codes : list string)
  : list (option string) :=
  match codes with
  | [] => []
  | c :: rest =>
      (if opt_eqb (Some c) last then None else Some c)
        :: debounce (Some c) rest
  end.

(** The cache rule in the spec's words: the resolver runs on a valid
    handle that differs from the stored one; the stored handle is then the
    handle seen, or none after an invalid one. *)
Fixpoint expected_lookups (stored : option Z) (hwnds : list (option Z))
  : list bool :=
  match hwnds with
  | [] => []
  | h :: rest =>
      (hwnd_truthy h && negb (hwnd_eqb h stored))
        :: expected_lookups (if hwnd_truthy h then h else None) rest
  end.

(** A tick on which the stop event is clear and the interface did nothing. *)
Definition quiet (os : OS) : Tick :=
  {| stop_is_set := false; gui := []; system := os |}.

(** The number of ticks the loop meets before the stop event is set. *)
Fixpoint ticks_before_stop (world : list Tick) : nat :=
  match world with
  | [] => O
  | tk :: world' =>
      if stop_is_set tk then O else S (ticks_before_stop world')
  end.

(** The profiles of the scenario: slot 1 is game.exe, slot 2 is editor.exe,
    slots 3 and 4 are empty. *)
Definition scenario_profiles (game_path editor_path : string) : Profiles :=
  [(1, {| idx := 1; exe_name := Some "game.exe";
          exe_path := Some game_path |});
   (2, {| idx := 2; exe_name := Some "editor.exe";
          exe_path := Some editor_path |});
   (3, new_profile 3);
   (4, new_profile 4)]%Z.

(** ** Sample systems and worlds *)

(** A system in which window [hwnd] belongs to process [hwnd + 1000], whose
    executable is [path]; threads start and the POST goes through. *)
Definition system_showing (hwnd : Z) (path : string) : OS :=
  {| GetForegroundWindow := Ret hwnd;
     GetWindowThreadProcessId := fun h => Ret (h + 1000)%Z;
     Process := fun _ => Ret tt;
     exe := fun _ => Ret path;
     Thread_start := Ret tt;
     requests_post := Ret tt |}.

(** No foreground window. *)
Definition system_idle : OS := system_showing 0 "".

(** The same, with the endpoint unreachable. *)
Definition endpoint_down (os : OS) : OS :=
  {| GetForegroundWindow := GetForegroundWindow os;
     GetWindowThreadProcessId := GetWindowThreadProcessId os;
     Process := Process os;
     exe := exe os;
     Thread_start := Thread_start os;
     requests_post := Raise OtherException |}.

(** The same, with no thread left to start. *)
Definition threads_exhausted (os : OS) : OS :=
  {| GetForegroundWindow := GetForegroundWindow os;
     GetWindowThreadProcessId := GetWindowThreadProcessId os;
     Process := Process os;
     exe := exe os;
     Thread_start := Raise OtherException;
     requests_post := requests_post os |}.

(** The same, with the foreground query failing. *)
Definition query_failing (os : OS) : OS :=
  {| GetForegroundWindow := Raise OtherException;
     GetWindowThreadProcessId := GetWindowThreadProcessId os;
     Process := Process os;
     exe := exe os;
     Thread_start := Thread_start os;
     requests_post := requests_post os |}.

Definition game_path : string := "C:\Games\Game.exe".
Definition editor_path : string := "D:\Tools\Editor.EXE".

Definition sample_profiles : Profiles :=
  scenario_profiles game_path editor_path.

Definition sample_app : App := init_app sample_profiles.

(** Five polls: nothing, the game twice in one window, the editor, an
    unknown program; the endpoint is down on the second poll. *)
Definition sample_systems : list OS :=
  [ system_idle;
    endpoint_down (system_showing 11 game_path);
    system_showing 11 game_path;
    system_showing 12 editor_path;
    system_showing 13 "C:\Windows\unknown.exe" ].

Definition sample_world : list Tick := map quiet sample_systems.

(** One poll of the game, then the stop event. *)
Definition game_then_stop : list Tick :=
  [ quiet (system_showing 11 game_path);
    {| stop_is_set := true; gui := []; system := system_idle |} ].

(** After a restart the same window handle is in front, and by now it
    belongs to the editor. *)
Definition same_handle_again : list Tick :=
  [ quiet (system_showing 11 editor_path) ].

(** Some call of the resolution of window [hwnd] raises: the pid lookup, or,
    for the pid it gives, the process lookup or the query of its executable. *)
Definition resolution_raises (os : OS) (hwnd : Z) : Prop :=
  (exists e, GetWindowThreadProcessId os hwnd = Raise e) \/
  (exists pid, GetWindowThreadProcessId os hwnd = Ret pid /\
     ((exists e, Process os pid = Raise e) \/
      (exists e, exe os pid = Raise e))).

(** The loop as it starts on the sample application. *)
Definition sample_start : Loop :=
  {| self := sample_app; last_sent := None |}.

(** ** The claims that fail, as stated *)

(** C3 as stated: a restart empties the cache, so the restarted loop does
    what it would do on the application with an empty cache. *)
Definition restart_is_fresh (app : App) (world1 world2 : list Tick)
  : Prop :=
  let app1 := fst (_watcher_loop app world1) in
  _last_hwnd app1 = None /\ _last_fg_exe app1 = None /\
  snd (_watcher_loop app1 world2)
  = snd (_watcher_loop (set_cache app1 None None) world2).

(** C7 as stated, for one iteration: when the foreground query raises, or
    the outer handler catches an exception, the iteration matches nothing
    and sleeps longer than the poll interval. *)
Definition error_treated_as_no_match (st : Loop) (os : OS) : Prop :=
  let log := snd (iteration st os) in
  (exists e, GetForegroundWindow os = Raise e) \/
  (exists e, caught log = Some e) ->
  selected_port log = None /\ (CHECK_INTERVAL < slept log)%Z.

(** ** The configuration file *)

(** [str(i)] of an [int]. *)
Definition str (i : Z) : string := NilZero.string_of_int (Z.to_int i).

(** [d.get(k)] of an object with string keys. *)
Fixpoint obj_get {V : Type} (d : list (string * V)) (k : string) : option V :=
  match d with
  | [] => None
  | (k', v) :: d' => if (k' =? k) then Some v else obj_get d' k
  end.

(** What [json.load] gives for a file that parses.  The file is taken to
    hold an object of the shape [_save_profiles_to_config] writes, any key of
    which may be missing: the value under "language", a string or null, and
    the object under "profiles", whose values are falsy ([None] here: null or
    an empty object) or non-empty objects read as [ConfigEntry]. *)
Record ConfigData : Type := {
  cfg_language : option (option string);
  cfg_profiles : option (list (string * option ConfigEntry))
}.

(** [{}] *)
Definition empty_config : ConfigData :=
  {| cfg_language := None; cfg_profiles := None |}.

(** [not data] *)
Definition config_falsy (data : ConfigData) : bool :=
  match cfg_language data, cfg_profiles data with
  | None, None => true
  | _, _ => false
  end.

(** The file at [CONFIG_PATH]: not there, there but failing to open or to
    parse, or holding data. *)
Inductive File : Type :=
| Missing
| Unreadable
| Holds (data : ConfigData).

(** [load_config]: the data of the file, [{}] when there is none or the
    read raises. *)
Definition load_config (file : File) : ConfigData :=
  match file with
  | Holds data => data
  | Missing => empty_config
  | Unreadable => empty_config
  end.

(** How the write of [save_config] goes, by what it leaves: the data,
    written in full; the file as it was, when the directory or the open
    raises; or a truncated file, when the dump raises after the open. *)
Inductive SaveIO : Type :=
| WriteDone
| OpenFails
| DumpFails.

(** [save_config]: every exception is logged and dropped.  A dump cut short
    leaves a strict prefix of a JSON object, which does not parse. *)
Definition save_config (file : File) (data : ConfigData) (io : SaveIO)
  : File :=
  match io with
  | WriteDone => Holds data
  | OpenFails => file
  | DumpFails => Unreadable
  end.

(** The attributes of the application that are saved: [self.language] and
    [self.profiles]. *)
Record Settings : Type := {
  language : option string;
  table : Profiles
}.

(** The defaults of [__init__]. *)
Definition default_settings : Settings :=
  {| language := Some "en"; table := initial_profiles |}.

(** The codes of [LOCALES]. *)
Definition LOCALES_codes : list string := ["en"; "tr"].

(** [set_language], as far as the settings go. *)
Definition set_language (self : Settings) (lang_code : string) : Settings :=
  if existsb (String.eqb lang_code) LOCALES_codes
  then {| language := Some lang_code; table := table self |}
  else self.

(** The body of [for i in range(1, 5)] of [_load_profiles_from_config]. *)
Definition load_slot (p : list (string * option ConfigEntry))
    (t : Profiles) (i : Z) : Profiles :=
  match obj_get p (str i) with
  | Some (Some d) => dict_set t i (from_dict i d)
  | _ => t
  end.

Definition _load_profiles_from_config (self : Settings) (file : File)
  : Settings :=
  let data := load_config file in
  if config_falsy data then self
  else
    {| language := match cfg_language data with
                   | Some v => v
                   | None => language self
                   end;
       table := fold_left
                  (load_slot match cfg_profiles data with
                             | Some p => p
                             | None => []
                             end)
                  [1; 2; 3; 4]%Z (table self) |}.

(** The settings of a newly constructed application. *)
Definition new_settings (file : File) : Settings :=
  _load_profiles_from_config default_settings file.

(** [{str(i): self.profiles[i].to_dict() for i in ...}]; a missing key
    raises [KeyError]. *)
Fixpoint profile_entries (t : Profiles) (range : list Z)
  : Res (list (string * option ConfigEntry)) :=
  match range with
  | [] => Ret []
  | i :: range' =>
      match dict_get t i with
      | Some pm =>
          rest <- profile_entries t range' ;;
          Ret ((str i, Some (to_dict pm)) :: rest)
      | None => Raise OtherException
      end
  end.

Definition _save_profiles_to_config (self : Settings) (file : File)
    (io : SaveIO) : Res File :=
  entries <- profile_entries (table self) [1; 2; 3; 4]%Z ;;
  Ret (save_config file
         {| cfg_language := Some (language self);
            cfg_profiles := Some entries |} io).

(** A history of saves, each of the settings of the moment. *)
Fixpoint save_all (file : File) (saves : list (Settings * SaveIO))
  : Res File :=
  match saves with
  | [] => Ret file
  | (self, io) :: saves' =>
      file' <- _save_profiles_to_config self file io ;;
      save_all file' saves'
  end.

(** ** More that the results are stated with *)

(** The slot an operation of the interface is about. *)
Definition op_slot (op : GuiOp) : Z :=
  match op with
  | AssignByExe i _ => i
  | AssignByClick i _ => i
  | ClearProfile i => i
  | LoadProfile i _ => i
  end.

(** What a profile of the dictionary looks like: nothing stored, or a
    non-empty path with no name or a lower-cased one. *)
Definition kept (pm : ProfileModel) : Prop :=
  (exe_name pm = None /\ exe_path pm = None) \/
  (truthy (exe_path pm) = true /\
   (exe_name pm = None \/
    exists s, s <> "" /\ exe_name pm = Some (lower s))).

Definition kept_at (entry : Z * ProfileModel) : Prop :=
  idx (snd entry) = fst entry /\ kept (snd entry).

(** What the round trips need of [str.lower]. *)
Definition lower_idempotent : Prop := forall s, lower (lower s) = lower s.
Definition lower_keeps_nonempty : Prop := forall s, s <> "" -> lower s <> "".

(** The codes there are. *)
Definition all_codes : list string := ["1s"; "2s"; "3s"; "4s"; "5s"].

(** The codes a run handed to the notifier, in order. *)
Definition sends (logs : list IterLog) : list string :=
  flat_map (fun l => match sent l with
                     | Some c => [c]
                     | None => []
                     end) logs.

(** No code of the list equals the one before it, the first one's
    predecessor being [prev]. *)
Fixpoint no_repeat (prev : option string) (codes : list string) : Prop :=
  match codes with
  | [] => True
  | c :: rest => Some c <> prev /\ no_repeat (Some c) rest
  end.

(** The system with another fate for the POST. *)
Definition with_post (os : OS) (r : Res unit) : OS :=
  {| GetForegroundWindow := GetForegroundWindow os;
     GetWindowThreadProcessId := GetWindowThreadProcessId os;
     Process := Process os;
     exe := exe os;
     Thread_start := Thread_start os;
     requests_post := r |}.

(** The world with the fates of the POSTs replaced, tick by tick. *)
Fixpoint replace_posts (world : list Tick) (posts : list (Res unit))
  : list Tick :=
  match world, posts with
  | tk :: world', r :: posts' =>
      {| stop_is_set := stop_is_set tk; gui := gui tk;
         system := with_post (system tk) r |}
        :: replace_posts world' posts'
  | _, _ => world
  end.

(** The cache holds no identity without a handle, and never the null
    handle. *)
Definition cache_ok (app : App) : Prop :=
  (_last_hwnd app = None -> _last_fg_exe app = None) /\
  _last_hwnd app <> Some 0%Z.

(** The watcher started and stopped several times, on the worlds given. *)
Definition sessions (app : App) (worlds : list (list Tick)) : App :=
  fold_left (fun a world => fst (_watcher_loop a world)) worlds app.

End Watcher.

(** ** Sample runs *)

Definition sample_library : Library :=
  {| basename := basename_nt; lower := lower_ascii |}.

(** The loop over the sample world, with the sample library functions. *)
Definition sample_run : Loop * list IterLog :=
  @watcher_iterations sample_library sample_start sample_world.

(** The application left by one poll of the game and a stop. *)
Definition stopped_app : App :=
  fst (@_watcher_loop sample_library sample_app game_then_stop).

(** * Results *)

Section Results.

Context {lib : Library}.

(** ** Python values *)

Lemma opt_eqb_eq (a b : option string) : opt_eqb a b = true <-> a = b.
Proof.
  destruct a as [x|], b as [y|]; simpl; split; intro H;
    try discriminate; try reflexivity.
  - apply String.eqb_eq in H. now subst.
  - inversion H; subst. apply String.eqb_refl.
Qed.

Lemma opt_eqb_refl (a : option string) : opt_eqb a a = true.
Proof. now apply opt_eqb_eq. Qed.

Lemma opt_eqb_neq (a b : option string) : opt_eqb a b = false <-> a <> b.
Proof.
  split; intro H.
  - intro E. apply opt_eqb_eq in E. congruence.
  - destruct (opt_eqb a b) eqn:E; [apply opt_eqb_eq in E; contradiction|reflexivity].
Qed.

Lemma hwnd_eqb_eq (a b : option Z) : hwnd_eqb a b = true <-> a = b.
Proof.
  destruct a as [x|], b as [y|]; simpl; split; intro H;
    try discriminate; try reflexivity.
  - apply Z.eqb_eq in H. now subst.
  - inversion H; subst. apply Z.eqb_refl.
Qed.

Lemma truthy_some (s : string) : truthy (Some s) = true <-> s <> "".
Proof.
  simpl. rewrite negb_true_iff. split; intro H.
  - intro E. subst. discriminate.
  - now apply String.eqb_neq.
Qed.

(** ** Dictionaries *)

Section DictFacts.
Context {V : Type}.
Implicit Types (d : list (Z * V)) (k : Z) (v : V).

Lemma dict_get_in_keys d k v : dict_get d k = Some v -> In k (keys d).
Proof.
  induction d as [|[k' v'] d IH]; simpl; [discriminate|].
  destruct (Z.eqb_spec k' k); intro H; [now left|right; auto].
Qed.

Lemma dict_set_keys d k v : In k (keys d) -> keys (dict_set d k v) = keys d.
Proof.
  induction d as [|[k' v'] d IH]; simpl; [contradiction|].
  destruct (Z.eqb_spec k' k) as [->|N]; simpl; [reflexivity|].
  intros [E|H]; [contradiction|]. f_equal. now apply IH.
Qed.

Lemma dict_get_set_same d k v :
  In k (keys d) -> dict_get (dict_set d k v) k = Some v.
Proof.
  induction d as [|[k' v'] d IH]; simpl; [contradiction|].
  destruct (Z.eqb_spec k' k) as [->|N]; simpl.
  - now rewrite Z.eqb_refl.
  - intros [E|H]; [contradiction|].
    destruct (Z.eqb_spec k' k); [contradiction|]. now apply IH.
Qed.

Lemma dict_get_in d k v : dict_get d k = Some v -> In (k, v) d.
Proof.
  induction d as [|[k' v'] d IH]; simpl; [discriminate|].
  destruct (Z.eqb_spec k' k) as [->|N]; intro H.
  - inversion H; subst. now left.
  - right; auto.
Qed.

Lemma dict_get_not_in d k : ~ In k (keys d) -> dict_get d k = None.
Proof.
  induction d as [|[k' v'] d IH]; simpl; [reflexivity|].
  intro H. destruct (Z.eqb_spec k' k); [tauto|]. apply IH. tauto.
Qed.
End DictFacts.

(** ** The profile dictionary keeps its four keys, in order *)

Lemma on_profile_keys (items : Profiles) i f :
  keys (on_profile items i f) = keys items.
Proof.
  unfold on_profile. destruct (dict_get items i) eqn:E; [|reflexivity].
  apply dict_set_keys. eapply dict_get_in_keys; eauto.
Qed.

Lemma gui_step_keys (items : Profiles) op :
  keys items = slots -> keys (gui_step items op) = slots.
Proof.
  intro K. destruct op as [i path|i os|i|i d]; simpl.
  - unfold assign_by_exe. destruct (path =? ""); [assumption|].
    now rewrite on_profile_keys.
  - unfold assign_by_click.
    destruct (safe_get_foreground_process os) as [[name path]|e];
      [|assumption].
    destruct (truthy name && truthy path); [|assumption].
    now rewrite on_profile_keys.
  - unfold clear_profile. now rewrite on_profile_keys.
  - unfold load_profile.
    destruct ((1 <=? i) && (i <? 5))%Z eqn:R; [|assumption].
    rewrite dict_set_keys; [assumption|]. rewrite K. unfold slots.
    apply andb_true_iff in R. destruct R as [R1 R2].
    apply Z.leb_le in R1. apply Z.ltb_lt in R2. simpl.
    assert (i = 1 \/ i = 2 \/ i = 3 \/ i = 4)%Z by lia. intuition.
Qed.

Lemma gui_steps_keys ops : forall items : Profiles,
  keys items = slots -> keys (gui_steps items ops) = slots.
Proof.
  unfold gui_steps.
  induction ops as [|op ops IH]; intros items K; simpl; [assumption|].
  apply IH. now apply gui_step_keys.
Qed.

Lemma initial_profiles_keys : keys initial_profiles = slots.
Proof. reflexivity. Qed.

(** ** The first match over increasing keys is the lowest matching slot *)

Lemma first_match_none (items : Profiles) name :
  first_match items name = None ->
  forall i pm, In (i, pm) items -> loop_test pm name = false.
Proof.
  induction items as [|[i0 pm0] items IH]; simpl; [contradiction|].
  fold (loop_test pm0 name).
  destruct (loop_test pm0 name) eqn:T; [discriminate|].
  intros H i pm [E|I]; [inversion E; now subst|eauto].
Qed.

Lemma first_match_some (items : Profiles) name k :
  StronglySorted Z.lt (keys items) ->
  first_match items name = Some k ->
  (exists pm, dict_get items k = Some pm /\ loop_test pm name = true) /\
  (forall j pm, (j < k)%Z -> dict_get items j = Some pm ->
                loop_test pm name = false).
Proof.
  induction items as [|[i0 pm0] items IH]; simpl; [discriminate|].
  intros S H. inversion S as [|? ? S' L]; subst.
  fold (loop_test pm0 name) in H.
  destruct (loop_test pm0 name) eqn:T.
  - inversion H; subst k. rewrite Z.eqb_refl. split; [eauto|].
    intros j pm Lt G. destruct (Z.eqb_spec i0 j); [lia|].
    apply dict_get_in_keys in G.
    rewrite Forall_forall in L. apply L in G. lia.
  - destruct (IH S' H) as [[pm [G T']] Low].
    assert (i0 < k)%Z as Lt.
    { rewrite Forall_forall in L. apply L.
      eapply dict_get_in_keys; eauto. }
    split.
    + exists pm. destruct (Z.eqb_spec i0 k); [lia|]. now split.
    + intros j pm' Lj G'. destruct (Z.eqb_spec i0 j) as [->|N].
      * inversion G'; now subst.
      * eauto.
Qed.

Lemma slots_sorted : StronglySorted Z.lt slots.
Proof.
  unfold slots. repeat constructor; lia.
Qed.

Lemma slot_matches_test (items : Profiles) k name pm :
  name <> "" -> dict_get items k = Some pm ->
  slot_matches items k (Some name) = loop_test pm name.
Proof.
  intros N G. unfold slot_matches, loop_test. rewrite G.
  apply truthy_some in N. rewrite N. reflexivity.
Qed.

Lemma reachable_keys ops : keys (gui_steps initial_profiles ops) = slots.
Proof. apply gui_steps_keys, initial_profiles_keys. Qed.

Lemma slot_in_range k : In k slots -> (1 <= k <= 4)%Z.
Proof. unfold slots. simpl. intuition lia. Qed.

Lemma slot_matches_falsy (items : Profiles) k fg_exe :
  truthy fg_exe = false -> slot_matches items k fg_exe = false.
Proof.
  intro F. unfold slot_matches. destruct (dict_get items k); [|reflexivity].
  now rewrite F.
Qed.

(** ** Matching *)

(** C4. Whatever the interface did to the profiles, and in whatever order,
    the slot the watcher matches is the lowest-numbered slot, among 1..4,
    that is assigned and named like the foreground executable; no slot is
    matched exactly when none of them is. *)
Theorem match_lowest_slot (ops : list GuiOp) (fg_exe : option string) :
  let items := gui_steps initial_profiles ops in
  match match_slot items fg_exe with
  | Some k =>
      (1 <= k <= 4)%Z /\
      slot_matches items k fg_exe = true /\
      (forall j, (j < k)%Z -> slot_matches items j fg_exe = false)
  | None => forall j, slot_matches items j fg_exe = false
  end.
Proof.
  intro items.
  assert (keys items = slots) as K by apply reachable_keys.
  destruct fg_exe as [name|]; simpl.
  2:{ intro j. now apply slot_matches_falsy. }
  destruct (String.eqb_spec name "") as [->|N]; simpl.
  { intro j. now apply slot_matches_falsy. }
  destruct (first_match items name) as [k|] eqn:F.
  - destruct (first_match_some items name k) as [[pm [G T]] Low];
      [rewrite K; apply slots_sorted|assumption|].
    split; [|split].
    + apply slot_in_range. rewrite <- K. eapply dict_get_in_keys; eauto.
    + now rewrite (slot_matches_test items k name pm).
    + intros j Lt. destruct (dict_get items j) as [pm'|] eqn:G'.
      * rewrite (slot_matches_test items j name pm') by assumption. eauto.
      * unfold slot_matches. now rewrite G'.
  - intro j. destruct (dict_get items j) as [pm'|] eqn:G'.
    + rewrite (slot_matches_test items j name pm') by assumption.
      eapply first_match_none; eauto. eapply dict_get_in; eauto.
    + unfold slot_matches. now rewrite G'.
Qed.

Lemma loop_test_same_but_path a b name :
  same_but_path a b -> loop_test (snd a) name = loop_test (snd b) name.
Proof.
  intros [_ [E|[En [Aa Ab]]]]; [now rewrite E|].
  unfold loop_test. now rewrite Aa, Ab, En.
Qed.

Lemma first_match_ignores_paths (t1 t2 : Profiles) name :
  differ_only_in_paths t1 t2 -> first_match t1 name = first_match t2 name.
Proof.
  induction 1 as [|[i pm] [j qm] t1 t2 R _ IH]; simpl; [reflexivity|].
  fold (loop_test pm name) (loop_test qm name).
  pose proof (loop_test_same_but_path _ _ name R) as T. simpl in T.
  rewrite T. destruct R as [E _]. simpl in E. subst j.
  now rewrite IH.
Qed.

(** C8. Matching compares names only.  An assigned profile passes the
    loop's test for a foreground name exactly when its stored name is that
    name, and two dictionaries that differ only in the paths stored in
    assigned slots give the same matched slot and the same selected port
    for every foreground executable. *)
Theorem match_ignores_paths (t1 t2 : Profiles) :
  differ_only_in_paths t1 t2 ->
  (forall pm name, is_assigned pm = true ->
     (loop_test pm name = true <-> exe_name pm = Some name)) /\
  (forall fg_exe,
     match_slot t1 fg_exe = match_slot t2 fg_exe /\
     select_port t1 fg_exe = select_port t2 fg_exe).
Proof.
  intro D. split.
  - intros pm name A. unfold loop_test. rewrite A. simpl. apply opt_eqb_eq.
  - intro fg_exe.
    assert (match_slot t1 fg_exe = match_slot t2 fg_exe) as M.
    { unfold match_slot. destruct fg_exe as [name|]; [|reflexivity].
      destruct (truthy (Some name)); [|reflexivity].
      now apply first_match_ignores_paths. }
    split; [assumption|]. unfold select_port. now rewrite M.
Qed.

(** ** Assignment *)

Lemma assign_falsy_name pm name path :
  truthy name = false -> exe_name (assign pm name path) = None.
Proof. intro F. unfold assign. simpl. now rewrite F. Qed.

(** C10. [assign] stores the lower-cased name when the name is a
    non-empty string.  When the name is [None] or empty it stores [None]
    as the name and still stores the path: the profile is not assigned,
    and the slot it sits in is matched by no foreground executable. *)
Theorem assign_normalizes_name (pm : ProfileModel)
    (name path : option string) :
  (forall s, name = Some s -> s <> "" ->
     exe_name (assign pm name path) = Some (lower s)) /\
  (name = None \/ name = Some "" ->
     exe_name (assign pm name path) = None /\
     exe_path (assign pm name path) = path /\
     is_assigned (assign pm name path) = false /\
     (forall fg_exe, loop_test (assign pm name path) fg_exe = false) /\
     (forall ops i fg_exe,
        match_slot
          (on_profile (gui_steps initial_profiles ops) i
             (fun pm' => assign pm' name path)) fg_exe <> Some i)).
Proof.
  split.
  - intros s -> N. unfold assign. simpl.
    apply String.eqb_neq in N. now rewrite N.
  - intro H.
    assert (truthy name = false) as F by (destruct H; subst; reflexivity).
    assert (forall p, is_assigned (assign p name path) = false) as NA.
    { intro p. unfold is_assigned. now rewrite assign_falsy_name. }
    repeat split.
    + now apply assign_falsy_name.
    + apply NA.
    + intro fg. unfold loop_test. now rewrite NA.
    + intros ops i fg_exe M.
      set (items := gui_steps initial_profiles ops) in *.
      assert (keys (on_profile items i (fun pm' => assign pm' name path))
              = slots) as K
        by (rewrite on_profile_keys; apply reachable_keys).
      unfold match_slot in M. destruct fg_exe as [n|]; [|discriminate].
      destruct (truthy (Some n)); [|discriminate].
      apply first_match_some in M; [|rewrite K; apply slots_sorted].
      destruct M as [[pm' [G T]] _]. unfold on_profile in G.
      destruct (dict_get items i) as [pm0|] eqn:G0.
      * rewrite dict_get_set_same in G
          by (eapply dict_get_in_keys; eauto).
        inversion G; subst pm'. unfold loop_test in T.
        now rewrite NA in T.
      * congruence.
Qed.

(** ** The foreground process *)

(** C9. [safe_get_foreground_process] raises nothing.  No foreground
    window, no pid, a process that is gone, or one whose executable may
    not be read (and any other failure of a call) give [(None, None)]; a
    resolution in which every call succeeds gives the lower-cased base
    name of the executable with its full path. *)
Theorem safe_get_foreground_process_total (os : OS) :
  (exists r, safe_get_foreground_process os = Ret r) /\
  (forall e, GetForegroundWindow os = Raise e ->
     safe_get_foreground_process os = Ret (None, None)) /\
  (GetForegroundWindow os = Ret 0%Z ->
     safe_get_foreground_process os = Ret (None, None)) /\
  (forall hwnd, GetForegroundWindow os = Ret hwnd ->
     (forall e, GetWindowThreadProcessId os hwnd = Raise e ->
        safe_get_foreground_process os = Ret (None, None)) /\
     (GetWindowThreadProcessId os hwnd = Ret 0%Z ->
        safe_get_foreground_process os = Ret (None, None)) /\
     (forall pid, GetWindowThreadProcessId os hwnd = Ret pid ->
        (forall e, Process os pid = Raise e ->
           safe_get_foreground_process os = Ret (None, None)) /\
        (forall e, exe os pid = Raise e ->
           safe_get_foreground_process os = Ret (None, None)) /\
        (forall u exe_path, hwnd <> 0%Z -> pid <> 0%Z ->
           Process os pid = Ret u -> exe os pid = Ret exe_path ->
           safe_get_foreground_process os
           = Ret (Some (lower (basename exe_path)), Some exe_path)))).
Proof.
  unfold safe_get_foreground_process, get_foreground_process_body,
    exe_or_denied.
  split; [|split; [|split; [|intros hwnd Hh; split; [|split]]]].
  - destruct (bind _ _); eauto.
  - now intros e ->.
  - now intros ->.
  - intros e He. rewrite Hh. simpl.
    destruct (hwnd =? 0)%Z; [reflexivity|]. now rewrite He.
  - intro Hp. rewrite Hh. simpl.
    destruct (hwnd =? 0)%Z; [reflexivity|]. now rewrite Hp.
  - intros pid Hp. rewrite Hh. simpl.
    split; [|split].
    + intros e He. destruct (hwnd =? 0)%Z; [reflexivity|].
      rewrite Hp. simpl. destruct (pid =? 0)%Z; [reflexivity|].
      now rewrite He.
    + intros e He. destruct (hwnd =? 0)%Z; [reflexivity|].
      rewrite Hp. simpl. destruct (pid =? 0)%Z; [reflexivity|].
      destruct (Process os pid); [|reflexivity]. simpl.
      rewrite He. now destruct e.
    + intros u exe_path Nh Np HP He.
      apply Z.eqb_neq in Nh. apply Z.eqb_neq in Np.
      rewrite Nh, Hp. simpl. rewrite Np, HP. simpl. now rewrite He.
Qed.

(** ** One iteration *)

Lemma opt_eqb_sym (a b : option string) : opt_eqb a b = opt_eqb b a.
Proof.
  destruct a, b; simpl; try reflexivity. apply String.eqb_sym.
Qed.

Lemma code_of_truthy port : truthy (Some (code_of port)) = true.
Proof.
  unfold code_of. destruct port as [p|]; [|reflexivity].
  destruct (truthy (Some p)) eqn:T; [assumption|reflexivity].
Qed.

Lemma code_of_selected port : truthy port = true -> Some (code_of port) = port.
Proof.
  unfold code_of. destruct port as [p|]; [|discriminate]. now intros ->.
Qed.

(** [notify] sends exactly when the code differs from [last_sent]. *)
Lemma notify_spec os port ls :
  notify os port ls =
  if opt_eqb (Some (code_of port)) ls then Ret (None, ls)
  else _ <- Thread_start os ;;
       Ret (Some (code_of port), Some (code_of port)).
Proof.
  unfold notify, send_port_async.
  destruct (truthy port) eqn:T.
  - rewrite (code_of_selected port T).
    destruct (opt_eqb port ls); reflexivity.
  - assert (code_of port = FALLBACK_PORT) as ->.
    { unfold code_of. destruct port; [now rewrite T|reflexivity]. }
    rewrite (opt_eqb_sym ls). destruct (opt_eqb _ ls); reflexivity.
Qed.

Lemma poll_foreground_profiles app os :
  profiles (fst (fst (poll_foreground app os))) = profiles app.
Proof.
  unfold poll_foreground.
  destruct (hwnd_truthy _); [destruct (negb _)|]; reflexivity.
Qed.

Ltac iteration_cases st os :=
  unfold iteration;
  let P := fresh "P" in
  let E := fresh "E" in
  let T := fresh "T" in
  destruct (poll_foreground (self st) os) as [[?self1 ?fg] ?res] eqn:P;
  rewrite notify_spec;
  destruct (opt_eqb (Some (code_of (select_port (profiles self1) fg)))
              (last_sent st)) eqn:E;
  [|destruct (Thread_start os) as [[]|?e] eqn:T]; simpl.

Lemma iteration_poll st os :
  (self (fst (iteration st os)), fg_exe_seen (snd (iteration st os)),
   resolver_called (snd (iteration st os)))
  = poll_foreground (self st) os /\
  hwnd_seen (snd (iteration st os)) = foreground_hwnd os.
Proof. iteration_cases st os; split; reflexivity. Qed.

Lemma iteration_profiles st os :
  profiles (self (fst (iteration st os))) = profiles (self st).
Proof.
  destruct (iteration_poll st os) as [P _].
  rewrite <- (poll_foreground_profiles (self st) os), <- P. reflexivity.
Qed.

Lemma iteration_port st os :
  selected_port (snd (iteration st os))
  = select_port (profiles (self st)) (fg_exe_seen (snd (iteration st os))).
Proof.
  pose proof (poll_foreground_profiles (self st) os) as Q.
  iteration_cases st os; simpl in Q; now rewrite Q.
Qed.

(** An iteration that completes sends exactly when its code differs from
    [last_sent], ends with that code as [last_sent], whatever becomes of
    the POST, and sleeps for the poll interval. *)
Lemma iteration_completed st os :
  caught (snd (iteration st os)) = None ->
  let code := code_of (selected_port (snd (iteration st os))) in
  sent (snd (iteration st os))
  = (if opt_eqb (Some code) (last_sent st) then None else Some code) /\
  last_sent (fst (iteration st os)) = Some code /\
  slept (snd (iteration st os)) = CHECK_INTERVAL.
Proof.
  iteration_cases st os; intro C; try discriminate; cbv zeta;
    pose proof E as E'; simpl in E' |- *; rewrite E'; repeat split.
  apply opt_eqb_eq in E. now rewrite E.
Qed.

(** An iteration cut short by an exception sent nothing, leaves
    [last_sent] as it was, and sleeps for the recovery time; the exception
    came from starting the sender thread for a code that differs from
    [last_sent]. *)
Lemma iteration_caught st os e :
  caught (snd (iteration st os)) = Some e ->
  sent (snd (iteration st os)) = None /\
  last_sent (fst (iteration st os)) = last_sent st /\
  slept (snd (iteration st os)) = RECOVERY_SLEEP /\
  Thread_start os = Raise e /\
  Some (code_of (selected_port (snd (iteration st os)))) <> last_sent st.
Proof.
  iteration_cases st os; intro C; try discriminate.
  inversion C; subst. repeat split. now apply opt_eqb_neq.
Qed.

Lemma iteration_sent st os :
  sent (snd (iteration st os)) = None \/
  sent (snd (iteration st os))
  = Some (code_of (selected_port (snd (iteration st os)))).
Proof.
  destruct (caught (snd (iteration st os))) as [e|] eqn:C.
  - left. now apply iteration_caught in C.
  - apply iteration_completed in C. cbv zeta in C.
    destruct C as [S _]. rewrite S. destruct (opt_eqb _ _); auto.
Qed.

(** ** The loop *)

Lemma watcher_iterations_step st tk world :
  stop_is_set tk = false ->
  watcher_iterations st (tk :: world) =
  (fst (watcher_iterations (fst (iteration (meet st tk) (system tk))) world),
   snd (iteration (meet st tk) (system tk))
     :: snd (watcher_iterations
               (fst (iteration (meet st tk) (system tk))) world)).
Proof.
  intro H. simpl. rewrite H.
  destruct (iteration (meet st tk) (system tk)) as [st1 log].
  cbn [fst snd].
  destruct (watcher_iterations st1 world) as [st2 logs]. reflexivity.
Qed.

Lemma watcher_iterations_stop st tk world :
  stop_is_set tk = true ->
  watcher_iterations st (tk :: world) = (meet st tk, []).
Proof. intro H. simpl. now rewrite H. Qed.

Lemma last_nonempty_default {A : Type} (l : list A) : forall a d d',
  last (a :: l) d = last (a :: l) d'.
Proof.
  induction l as [|b l IH]; intros a d d'; [reflexivity|].
  change (last (b :: l) d = last (b :: l) d'). apply IH.
Qed.

Lemma last_cons_default {A : Type} (l : list A) (a d : A) :
  last (a :: l) d = last l a.
Proof.
  destruct l as [|b l]; [reflexivity|].
  change (last (b :: l) d = last (b :: l) a). apply last_nonempty_default.
Qed.

Lemma debounce_nth codes : forall last i c c',
  nth_error codes i = Some c -> nth_error codes (S i) = Some c' ->
  nth_error (debounce last codes) (S i)
  = Some (if (c' =? c) then None else Some c').
Proof.
  induction codes as [|c0 codes IH]; intros last i c c' H H';
    [destruct i; discriminate|].
  destruct i as [|i]; simpl in H, H' |- *.
  - inversion H; subst c0. destruct codes as [|c1 codes]; [discriminate|].
    inversion H'; subst c1. reflexivity.
  - eapply IH; eauto.
Qed.

Lemma debounce_run world : forall st,
  let run := watcher_iterations st world in
  let codes := map (fun l => code_of (selected_port l)) (snd run) in
  Forall (fun l => caught l = None) (snd run) ->
  map sent (snd run) = debounce (last_sent st) codes /\
  last_sent (fst run) = last (map Some codes) (last_sent st).
Proof.
  induction world as [|tk world IH]; intros st; cbv zeta;
    [simpl; auto|].
  destruct (stop_is_set tk) eqn:S.
  - rewrite watcher_iterations_stop by assumption. simpl. auto.
  - rewrite watcher_iterations_step by assumption. simpl.
    intro F. inversion F as [|? ? C F']; subst.
    destruct (iteration_completed _ _ C) as [Hs [Hl _]].
    change (last_sent (meet st tk)) with (last_sent st) in Hs.
    specialize (IH (fst (iteration (meet st tk) (system tk))) F').
    cbv zeta in IH. destruct IH as [IH1 IH2].
    rewrite Hl in IH1, IH2. rewrite Hs, IH1, IH2. split; [reflexivity|].
    symmetry. apply last_cons_default.
Qed.

(** C1. An iteration that completes hands its code to the notifier exactly
    when the code differs from the stored last-sent code, and whenever a
    code is handed over it is the stored code afterwards, whatever becomes of
    the POST.  So in a run of the loop in which no iteration is cut short by
    an exception, the stored code is the code of the tick before: each tick
    after the first sends exactly when its code differs from its
    predecessor's, and each maximal run of equal codes sends once, at its
    first tick. *)
Theorem debounce_correct :
  (forall st os,
     let st' := fst (iteration st os) in
     let log := snd (iteration st os) in
     let code := code_of (selected_port log) in
     (caught log = None ->
      (sent log = Some code <-> Some code <> last_sent st) /\
      (sent log = None <-> Some code = last_sent st) /\
      last_sent st' = Some code) /\
     (forall c, sent log = Some c -> c = code /\ last_sent st' = Some c)) /\
  (forall st world,
     let run := watcher_iterations st world in
     let codes := map (fun l => code_of (selected_port l)) (snd run) in
     Forall (fun l => caught l = None) (snd run) ->
     map sent (snd run) = debounce (last_sent st) codes /\
     (forall i c c',
        nth_error codes i = Some c -> nth_error codes (S i) = Some c' ->
        nth_error (map sent (snd run)) (S i)
        = Some (if (c' =? c) then None else Some c')) /\
     last_sent (fst run) = last (map Some codes) (last_sent st)).
Proof.
  split.
  - intros st os st' log code.
    assert (caught log = None ->
            (sent log = Some code <-> Some code <> last_sent st) /\
            (sent log = None <-> Some code = last_sent st) /\
            last_sent st' = Some code) as Done.
    { intro C. apply iteration_completed in C. cbv zeta in C.
      fold st' log code in C. destruct C as [S [L _]].
      rewrite S. destruct (opt_eqb (Some code) (last_sent st)) eqn:E.
      - apply opt_eqb_eq in E.
        repeat split; try assumption; try discriminate; congruence.
      - apply opt_eqb_neq in E.
        repeat split; try assumption; try discriminate; congruence. }
    split; [exact Done|].
    intros c S. destruct (caught log) as [e|] eqn:C.
    + apply iteration_caught in C. fold log in C. destruct C as [N _].
      congruence.
    + destruct (Done eq_refl) as [_ [_ L]].
      destruct (iteration_sent st os) as [N|N]; fold log code in N;
        [congruence|].
      rewrite N in S. inversion S; subst c. now split.
  - intros st world run codes F.
    destruct (debounce_run world st F) as [H1 H2].
    fold run in H1, H2. fold codes in H1, H2.
    split; [assumption|split; [|assumption]].
    intros i c c' Hi Hi'. rewrite H1. now apply debounce_nth with (c := c).
Qed.

(** ** The cache *)

Lemma poll_foreground_lookup app os :
  let hwnd := foreground_hwnd os in
  snd (poll_foreground app os)
  = hwnd_truthy hwnd && negb (hwnd_eqb hwnd (_last_hwnd app)) /\
  _last_hwnd (fst (fst (poll_foreground app os)))
  = (if hwnd_truthy hwnd then hwnd else None).
Proof.
  cbv zeta. unfold poll_foreground.
  destruct (hwnd_truthy (foreground_hwnd os)); [|auto].
  destruct (hwnd_eqb (foreground_hwnd os) (_last_hwnd app)) eqn:E;
    simpl; [|auto].
  apply hwnd_eqb_eq in E. auto.
Qed.

Lemma lookups_run world : forall st,
  let logs := snd (watcher_iterations st world) in
  map resolver_called logs
  = expected_lookups (_last_hwnd (self st)) (map hwnd_seen logs).
Proof.
  induction world as [|tk world IH]; intro st; cbv zeta; [reflexivity|].
  destruct (stop_is_set tk) eqn:S.
  - now rewrite watcher_iterations_stop.
  - rewrite watcher_iterations_step by assumption. simpl.
    rewrite IH.
    destruct (iteration_poll (meet st tk) (system tk)) as [P H].
    destruct (poll_foreground_lookup (self (meet st tk)) (system tk))
      as [L1 L2].
    rewrite <- P in L1, L2. simpl in L1, L2.
    rewrite L1, L2, H. reflexivity.
Qed.

Lemma iteration_cache st os :
  let hwnd := foreground_hwnd os in
  let st' := fst (iteration st os) in
  let log := snd (iteration st os) in
  (hwnd_truthy hwnd = false ->
     resolver_called log = false /\ fg_exe_seen log = None /\
     _last_hwnd (self st') = None /\ _last_fg_exe (self st') = None) /\
  (hwnd_truthy hwnd = true -> hwnd = _last_hwnd (self st) ->
     resolver_called log = false /\
     fg_exe_seen log = _last_fg_exe (self st) /\
     self st' = self st) /\
  (forall h, hwnd = Some h -> h <> 0%Z ->
     hwnd <> _last_hwnd (self st) ->
     resolver_called log = true /\
     fg_exe_seen log = resolve_fg_exe os h /\
     _last_hwnd (self st') = Some h /\
     _last_fg_exe (self st') = resolve_fg_exe os h).
Proof.
  intros hwnd st' log.
  destruct (iteration_poll st os) as [P _].
  fold st' log in P. unfold poll_foreground in P. fold hwnd in P.
  split; [|split].
  - intro F. rewrite F in P. injection P as A B C.
    rewrite A, B, C. auto.
  - intros T E. rewrite T in P.
    apply hwnd_eqb_eq in E. rewrite E in P. simpl in P.
    injection P as A B C. rewrite A, B, C. auto.
  - intros h E N D. rewrite E in P, D.
    destruct (hwnd_eqb (Some h) (_last_hwnd (self st))) eqn:Q.
    + apply hwnd_eqb_eq in Q. contradiction.
    + unfold hwnd_truthy in P. apply Z.eqb_neq in N. rewrite N in P.
      cbn [negb] in P. injection P as A B C. rewrite A, B, C. auto.
Qed.

(** C2. On each tick: with no valid foreground handle the cache is
    emptied, nothing is resolved and the identity is none; with the stored
    handle in front again the stored identity is used, nothing is resolved
    and the cache stays; with another valid handle the process is resolved
    and the handle is stored with the result, found or not.  Over a run,
    the resolver runs exactly on the ticks whose valid handle differs from
    the stored one. *)
Theorem resolution_cache_correct :
  (forall st os,
     let hwnd := foreground_hwnd os in
     let st' := fst (iteration st os) in
     let log := snd (iteration st os) in
     (hwnd_truthy hwnd = false ->
        resolver_called log = false /\ fg_exe_seen log = None /\
        _last_hwnd (self st') = None /\ _last_fg_exe (self st') = None) /\
     (hwnd_truthy hwnd = true -> hwnd = _last_hwnd (self st) ->
        resolver_called log = false /\
        fg_exe_seen log = _last_fg_exe (self st) /\
        self st' = self st) /\
     (forall h, hwnd = Some h -> h <> 0%Z ->
        hwnd <> _last_hwnd (self st) ->
        resolver_called log = true /\
        fg_exe_seen log = resolve_fg_exe os h /\
        _last_hwnd (self st') = Some h /\
        _last_fg_exe (self st') = resolve_fg_exe os h)) /\
  (forall st world,
     let logs := snd (watcher_iterations st world) in
     map resolver_called logs
     = expected_lookups (_last_hwnd (self st)) (map hwnd_seen logs)).
Proof.
  split; [intros st os; apply iteration_cache|].
  intros st world; apply lookups_run.
Qed.

(** ** Codes *)



(** ** The scenario *)

Lemma watcher_loop_unfold app world :
  _watcher_loop app world =
  (self (fst (watcher_iterations {| self := app; last_sent := None |} world)),
   snd (watcher_iterations {| self := app; last_sent := None |} world)).
Proof.
  unfold _watcher_loop.
  now destruct (watcher_iterations _ world).
Qed.

Lemma quiet_run_ports oss : forall st,
  Forall (fun l => selected_port l
                   = select_port (profiles (self st)) (fg_exe_seen l))
    (snd (watcher_iterations st (map quiet oss))).
Proof.
  induction oss as [|os oss IH]; intro st; simpl map; [constructor|].
  rewrite watcher_iterations_step by reflexivity. simpl snd.
  constructor.
  - now rewrite iteration_port.
  - specialize (IH (fst (iteration (meet st (quiet os)) os))).
    rewrite iteration_profiles in IH. exact IH.
Qed.

Section Scenario.
Variables game editor : string.
Hypothesis game_set : game <> "".
Hypothesis editor_set : editor <> "".

Lemma scenario_codes :
  let items := scenario_profiles game editor in
  code_of (select_port items None) = "1s" /\
  code_of (select_port items (Some "game.exe")) = "2s" /\
  code_of (select_port items (Some "editor.exe")) = "3s" /\
  code_of (select_port items (Some "unknown.exe")) = "1s".
Proof.
  pose proof game_set as G. pose proof editor_set as E.
  apply String.eqb_neq in G, E.
  unfold select_port, match_slot, scenario_profiles, first_match,
    is_assigned.
  simpl. rewrite G, E. simpl. auto.
Qed.
End Scenario.

(** C6. With slot 1 assigned to game.exe, slot 2 to editor.exe and the
    other slots empty, a loop that starts, meets five ticks whose
    foreground identities are none, game.exe, game.exe, editor.exe and
    unknown.exe, and completes each iteration, sends "1s", "2s", nothing,
    "3s", "1s" on them. *)
Theorem scenario_dispatch (game editor : string) (app : App)
    (oss : list OS) :
  game <> "" -> editor <> "" ->
  profiles app = scenario_profiles game editor ->
  let logs := snd (_watcher_loop app (map quiet oss)) in
  Forall (fun l => caught l = None) logs ->
  map fg_exe_seen logs
  = [None; Some "game.exe"; Some "game.exe"; Some "editor.exe";
     Some "unknown.exe"] ->
  map sent logs = [Some "1s"; Some "2s"; None; Some "3s"; Some "1s"].
Proof.
  intros G E T logs F I.
  unfold logs in *. rewrite watcher_loop_unfold in *. simpl snd in *.
  set (st := {| self := app; last_sent := None |}) in *.
  destruct (debounce_run (map quiet oss) st F) as [D _].
  rewrite D.
  rewrite (map_ext_in _
             (fun l => code_of (select_port (scenario_profiles game editor)
                                  (fg_exe_seen l)))).
  2:{ intros l L. pose proof (quiet_run_ports oss st) as Q.
      rewrite Forall_forall in Q. rewrite (Q l L). simpl. now rewrite T. }
  rewrite <- (map_map fg_exe_seen
                (fun fg => code_of (select_port
                                      (scenario_profiles game editor) fg))).
  rewrite I.
  destruct (scenario_codes game editor G E) as [C0 [C1 [C2 C3]]].
  cbn [map]. rewrite C0, C1, C2, C3. reflexivity.
Qed.

(** ** Stopping and starting again *)

(** C3, as the code has it.  A loop started on the application that an
    earlier loop left starts with [last_sent] unset but with the cache the
    earlier loop left: on its first tick the process is resolved exactly
    when the handle is valid and is not the cached one, the cached identity
    is used when the cached handle is in front again, and the iteration,
    if it completes, sends its code whatever was sent before the stop. *)
Theorem restart_resets_last_sent_only (app : App) (world1 : list Tick)
    (tk : Tick) (world2 : list Tick) :
  stop_is_set tk = false ->
  let app1 := fst (_watcher_loop app world1) in
  let logs := snd (_watcher_loop app1 (tk :: world2)) in
  exists log rest,
    logs = log :: rest /\
    resolver_called log
    = hwnd_truthy (hwnd_seen log)
      && negb (hwnd_eqb (hwnd_seen log) (_last_hwnd app1)) /\
    (hwnd_truthy (hwnd_seen log) = true ->
     hwnd_seen log = _last_hwnd app1 ->
     fg_exe_seen log = _last_fg_exe app1) /\
    (caught log = None -> sent log = Some (code_of (selected_port log))).
Proof.
  intros S app1 logs. unfold logs. rewrite watcher_loop_unfold.
  set (st := {| self := app1; last_sent := None |}).
  rewrite watcher_iterations_step by assumption. simpl snd.
  set (st0 := meet st tk).
  exists (snd (iteration st0 (system tk))). eexists.
  split; [reflexivity|].
  destruct (iteration_poll st0 (system tk)) as [P H].
  split; [|split].
  - destruct (poll_foreground_lookup (self st0) (system tk)) as [L _].
    rewrite <- P in L. simpl in L. now rewrite H.
  - intros T E. rewrite H in T, E.
    destruct (iteration_cache st0 (system tk)) as [_ [C _]].
    destruct (C T E) as [_ [F _]]. exact F.
  - intro C. apply iteration_completed in C. cbv zeta in C.
    destruct C as [C _]. exact C.
Qed.

(** ** Exceptions *)

Lemma foreground_hwnd_raise os e :
  GetForegroundWindow os = Raise e -> foreground_hwnd os = None.
Proof. unfold foreground_hwnd. now intros ->. Qed.

Lemma resolve_fg_exe_raises os hwnd :
  resolution_raises os hwnd -> resolve_fg_exe os hwnd = None.
Proof.
  unfold resolve_fg_exe, lookup_fg_exe, exe_or_denied.
  intros [[e E]|[pid [E [[e P]|[e X]]]]]; rewrite E; simpl;
    try reflexivity; destruct (pid =? 0)%Z; try reflexivity.
  - now rewrite P.
  - destruct (Process os pid); [|reflexivity]. simpl. rewrite X.
    now destruct e.
Qed.

Lemma iterations_count world : forall st,
  List.length (snd (watcher_iterations st world)) = ticks_before_stop world.
Proof.
  induction world as [|tk world IH]; intro st; [reflexivity|].
  destruct (stop_is_set tk) eqn:S.
  - rewrite watcher_iterations_stop by assumption. simpl. now rewrite S.
  - rewrite watcher_iterations_step by assumption. simpl. rewrite S.
    now rewrite IH.
Qed.

(** C7, as the code has it.  An exception of the foreground query, or of
    the resolution of a changed window, is handled inside the iteration:
    the identity is none and no slot is matched.  Every iteration that
    completes sleeps for the poll interval.  An exception that reaches the
    outer handler cuts the iteration short: nothing was sent, [last_sent]
    is as before, and the loop sleeps for the longer recovery time.  In
    every case the loop goes on: it runs one iteration for every tick it
    meets before the stop event is set. *)
Theorem iteration_errors_isolated :
  (forall st os e, GetForegroundWindow os = Raise e ->
     let log := snd (iteration st os) in
     fg_exe_seen log = None /\ selected_port log = None) /\
  (forall st os h, foreground_hwnd os = Some h ->
     let log := snd (iteration st os) in
     resolver_called log = true -> resolution_raises os h ->
     fg_exe_seen log = None /\ selected_port log = None) /\
  (forall st os,
     let log := snd (iteration st os) in
     caught log = None -> slept log = CHECK_INTERVAL) /\
  (forall st os e,
     let st' := fst (iteration st os) in
     let log := snd (iteration st os) in
     caught log = Some e ->
     sent log = None /\ last_sent st' = last_sent st /\
     slept log = RECOVERY_SLEEP /\ (CHECK_INTERVAL < slept log)%Z) /\
  (forall st world,
     List.length (snd (watcher_iterations st world)) = ticks_before_stop world).
Proof.
  split; [|split; [|split; [|split]]].
  - intros st os e R log.
    destruct (iteration_cache st os) as [C _].
    rewrite (foreground_hwnd_raise os e R) in C.
    destruct (C eq_refl) as [_ [F _]]. fold log in F.
    split; [assumption|]. unfold log. rewrite iteration_port.
    fold log. now rewrite F.
  - intros st os h H log R L. apply resolve_fg_exe_raises in L.
    destruct (iteration_poll st os) as [P _].
    destruct (poll_foreground_lookup (self st) os) as [Q _].
    rewrite <- P in Q. simpl in Q. fold log in Q. rewrite R, H in Q.
    symmetry in Q. apply andb_true_iff in Q. destruct Q as [Q1 Q2].
    apply negb_true_iff in Q2.
    destruct (iteration_cache st os) as [_ [_ C]]. rewrite H in C.
    destruct (C h eq_refl) as [_ [F _]].
    + simpl in Q1. apply negb_true_iff in Q1. now apply Z.eqb_neq.
    + intro E. apply hwnd_eqb_eq in E. congruence.
    + fold log in F. rewrite L in F.
      split; [assumption|]. unfold log.
      rewrite iteration_port. fold log. now rewrite F.
  - intros st os log C. now apply iteration_completed in C.
  - intros st os e st' log C. apply iteration_caught in C.
    fold st' log in C. destruct C as [C1 [C2 [C3 _]]].
    repeat split; try assumption. rewrite C3. reflexivity.
  - intros st world. apply iterations_count.
Qed.

(** * Further results *)

(** ** The dictionary under the operations of the interface *)

Lemma dict_get_set_other {V : Type} (d : list (Z * V)) k j v :
  j <> k -> dict_get (dict_set d k v) j = dict_get d j.
Proof.
  intro N. induction d as [|[k' v'] d IH]; simpl.
  - destruct (Z.eqb_spec k j); [congruence|reflexivity].
  - destruct (Z.eqb_spec k' k) as [->|N']; simpl.
    + destruct (Z.eqb_spec k j); [congruence|reflexivity].
    + destruct (Z.eqb_spec k' j); [reflexivity|assumption].
Qed.

Lemma dict_set_set {V : Type} (d : list (Z * V)) k v v' :
  dict_set (dict_set d k v) k v' = dict_set d k v'.
Proof.
  induction d as [|[k' w] d IH]; simpl.
  - now rewrite Z.eqb_refl.
  - destruct (Z.eqb_spec k' k) as [->|N]; simpl.
    + now rewrite Z.eqb_refl.
    + destruct (Z.eqb_spec k' k); [contradiction|]. now rewrite IH.
Qed.

Lemma dict_set_Forall {V : Type} (P : Z * V -> Prop) (d : list (Z * V)) k v :
  Forall P d -> P (k, v) -> Forall P (dict_set d k v).
Proof.
  intros F Pv. induction F as [|[k' w] d Pw F IH]; simpl.
  - now constructor.
  - destruct (Z.eqb_spec k' k); constructor; assumption.
Qed.

Lemma on_profile_other (t : Profiles) i f j :
  j <> i -> dict_get (on_profile t i f) j = dict_get t j.
Proof.
  intro N. unfold on_profile. destruct (dict_get t i); [|reflexivity].
  now apply dict_get_set_other.
Qed.

(** X1. An operation of the interface on one slot leaves the profile under
    every other key as it was. *)
Theorem gui_step_other_slots (t : Profiles) (op : GuiOp) (j : Z) :
  j <> op_slot op -> dict_get (gui_step t op) j = dict_get t j.
Proof.
  destruct op as [i path|i os|i|i d]; simpl; intro N.
  - unfold assign_by_exe. destruct (path =? ""); [reflexivity|].
    now apply on_profile_other.
  - unfold assign_by_click.
    destruct (safe_get_foreground_process os) as [[name path]|e];
      [|reflexivity].
    destruct (truthy name && truthy path); [|reflexivity].
    now apply on_profile_other.
  - now apply on_profile_other.
  - unfold load_profile. destruct ((1 <=? i) && (i <? 5))%Z; [|reflexivity].
    now apply dict_get_set_other.
Qed.

Lemma on_profile_kept (t : Profiles) i f :
  Forall kept_at t ->
  (forall pm, idx pm = i -> idx (f pm) = i /\ kept (f pm)) ->
  Forall kept_at (on_profile t i f).
Proof.
  intros F Hf. unfold on_profile. destruct (dict_get t i) as [pm|] eqn:G;
    [|assumption].
  apply dict_set_Forall; [assumption|].
  apply dict_get_in in G. rewrite Forall_forall in F.
  destruct (F _ G) as [I _]. simpl in I. now apply Hf.
Qed.

Lemma assign_kept pm name path :
  truthy path = true -> kept (assign pm name path).
Proof.
  intro T. right. split; [assumption|]. unfold assign. simpl.
  destruct name as [s|]; simpl; [|now left].
  destruct (String.eqb_spec s ""); simpl; [now left|right; now exists s].
Qed.

Lemma from_dict_kept i d : idx (from_dict i d) = i /\ kept (from_dict i d).
Proof.
  unfold from_dict. destruct (truthy (cfg_exe_path d)) eqn:T.
  - split; [reflexivity|now apply assign_kept].
  - split; [reflexivity|left; now split].
Qed.

Lemma gui_step_kept (t : Profiles) op :
  Forall kept_at t -> Forall kept_at (gui_step t op).
Proof.
  intro F. destruct op as [i path|i os|i|i d]; simpl.
  - unfold assign_by_exe. destruct (String.eqb_spec path ""); [assumption|].
    apply on_profile_kept; [assumption|]. intros pm I.
    split; [assumption|]. apply assign_kept. now apply truthy_some.
  - unfold assign_by_click.
    destruct (safe_get_foreground_process os) as [[name path]|e];
      [|assumption].
    destruct (truthy name && truthy path) eqn:T; [|assumption].
    apply andb_true_iff in T. destruct T as [_ T].
    apply on_profile_kept; [assumption|]. intros pm I.
    split; [assumption|]. now apply assign_kept.
  - apply on_profile_kept; [assumption|]. intros pm I.
    split; [assumption|]. left. now split.
  - unfold load_profile. destruct ((1 <=? i) && (i <? 5))%Z; [|assumption].
    apply dict_set_Forall; [assumption|]. apply from_dict_kept.
Qed.

Lemma reachable_kept ops : Forall kept_at (gui_steps initial_profiles ops).
Proof.
  unfold gui_steps.
  assert (Forall kept_at initial_profiles) as F.
  { repeat constructor; left; now split. }
  revert F. generalize initial_profiles.
  induction ops as [|op ops IH]; intros t F; simpl; [assumption|].
  apply IH. now apply gui_step_kept.
Qed.



Lemma reachable_slot ops i :
  (1 <= i <= 4)%Z ->
  exists pm, dict_get (gui_steps initial_profiles ops) i = Some pm /\
             idx pm = i /\ kept pm.
Proof.
  intro R. pose proof (reachable_keys ops) as K.
  pose proof (reachable_kept ops) as F.
  destruct (dict_get (gui_steps initial_profiles ops) i) as [pm|] eqn:G.
  - exists pm. split; [reflexivity|].
    apply dict_get_in in G. rewrite Forall_forall in F. apply (F _ G).
  - assert (In i slots) as I
      by (unfold slots; simpl;
          assert (i = 1 \/ i = 2 \/ i = 3 \/ i = 4)%Z by lia; intuition).
    rewrite <- K in I. clear - G I.
    induction (gui_steps initial_profiles ops) as [|[k v] d IH];
      simpl in *; [contradiction|].
    destruct (Z.eqb_spec k i); [discriminate|].
    destruct I as [E|I]; [contradiction|auto].
Qed.

Lemma on_profile_after_set (t : Profiles) i pm' f :
  In i (keys t) ->
  on_profile (dict_set t i pm') i f = dict_set t i (f pm').
Proof.
  intro I. unfold on_profile. rewrite dict_get_set_same by assumption.
  apply dict_set_set.
Qed.

Lemma on_profile_after_on_profile (t : Profiles) i g f :
  on_profile (on_profile t i g) i f = on_profile t i (fun pm => f (g pm)).
Proof.
  unfold on_profile at 2 3. destruct (dict_get t i) as [pm|] eqn:G.
  - apply on_profile_after_set. eapply dict_get_in_keys; eauto.
  - unfold on_profile. now rewrite G.
Qed.

Lemma on_profile_ext (t : Profiles) i f g :
  (forall pm, dict_get t i = Some pm -> f pm = g pm) ->
  on_profile t i f = on_profile t i g.
Proof.
  intro E. unfold on_profile. destruct (dict_get t i) as [pm|] eqn:G;
    [|reflexivity].
  now rewrite (E pm).
Qed.

(** What an operation leaves under its slot has the slot's index, and the
    operation is a change of the profile under that one key. *)
Lemma gui_step_at_slot ops op :
  let t := gui_steps initial_profiles ops in
  forall f, (forall pm qm, idx pm = idx qm -> f pm = f qm) ->
  on_profile (gui_step t op) (op_slot op) f = on_profile t (op_slot op) f.
Proof.
  intros t f Hf.
  assert (forall g, (forall pm, idx (g pm) = idx pm) ->
            on_profile (on_profile t (op_slot op) g) (op_slot op) f
            = on_profile t (op_slot op) f) as Same.
  { intros g Hg. rewrite on_profile_after_on_profile.
    apply on_profile_ext. intros pm _. apply Hf, Hg. }
  destruct op as [i path|i os|i|i d]; simpl.
  - unfold assign_by_exe. destruct (path =? ""); [reflexivity|].
    now apply (Same (fun pm => assign pm _ _)).
  - unfold assign_by_click.
    destruct (safe_get_foreground_process os) as [[name path]|e];
      [|reflexivity].
    destruct (truthy name && truthy path); [|reflexivity].
    now apply (Same (fun pm => assign pm _ _)).
  - now apply (Same clear).
  - unfold load_profile.
    destruct ((1 <=? i) && (i <? 5))%Z eqn:R; [|reflexivity].
    apply andb_true_iff in R. destruct R as [R1 R2].
    apply Z.leb_le in R1. apply Z.ltb_lt in R2.
    destruct (reachable_slot ops i) as [pm [G [I _]]]; [lia|].
    fold t in G.
    rewrite on_profile_after_set by (eapply dict_get_in_keys; eauto).
    unfold on_profile. rewrite G. f_equal. apply Hf.
    rewrite I. apply from_dict_kept.
Qed.

(** X3. The last operation on a slot decides what the slot holds: an
    assignment of an executable, or a clearing, gives the same dictionary
    whether or not another operation on the same slot came just before.  In
    particular assigning the same executable twice, or clearing twice, is as
    good as once. *)
Theorem last_write_wins (ops : list GuiOp) (op : GuiOp) (path : string) :
  let t := gui_steps initial_profiles ops in
  let i := op_slot op in
  (path <> "" ->
   assign_by_exe (gui_step t op) i path = assign_by_exe t i path) /\
  clear_profile (gui_step t op) i = clear_profile t i.
Proof.
  intros t i. split.
  - intro N. unfold assign_by_exe. apply String.eqb_neq in N. rewrite N.
    apply (gui_step_at_slot ops op). intros pm qm E.
    unfold assign. now rewrite E.
  - unfold clear_profile. apply (gui_step_at_slot ops op). intros pm qm E.
    unfold clear. now rewrite E.
Qed.

(** ** Matching after an assignment or a clearing *)

Lemma on_profile_same (t : Profiles) i f :
  dict_get (on_profile t i f) i = option_map f (dict_get t i).
Proof.
  unfold on_profile. destruct (dict_get t i) as [pm|] eqn:G; simpl.
  - apply dict_get_set_same. eapply dict_get_in_keys; eauto.
  - assumption.
Qed.

Lemma lowest_match_unique (t : Profiles) n k pm :
  StronglySorted Z.lt (keys t) ->
  dict_get t k = Some pm -> loop_test pm n = true ->
  (forall j pm', (j < k)%Z -> dict_get t j = Some pm' ->
                 loop_test pm' n = false) ->
  first_match t n = Some k.
Proof.
  intros S G T Low. destruct (first_match t n) as [k'|] eqn:F.
  - destruct (first_match_some t n k' S F) as [[pm' [G' T']] Low'].
    destruct (Z.lt_trichotomy k' k) as [L|[E|L]].
    + rewrite (Low k' pm' L G') in T'. discriminate.
    + now subst.
    + rewrite (Low' k pm L G) in T. discriminate.
  - rewrite (first_match_none t n F k pm) in T; [discriminate|].
    now apply dict_get_in.
Qed.

Lemma assigned_slot_found (t : Profiles) n i pm :
  StronglySorted Z.lt (keys t) ->
  dict_get t i = Some pm -> loop_test pm n = true ->
  exists k, first_match t n = Some k /\ (k <= i)%Z.
Proof.
  intros S G T. destruct (first_match t n) as [k|] eqn:F.
  - exists k. split; [reflexivity|].
    destruct (first_match_some t n k S F) as [_ Low].
    destruct (Z.le_gt_cases k i) as [L|L]; [assumption|].
    rewrite (Low i pm) in T; [discriminate|lia|assumption].
  - rewrite (first_match_none t n F i pm) in T; [discriminate|].
    now apply dict_get_in.
Qed.

Lemma port_of_slot k :
  In k slots ->
  exists port, dict_get PROFILE_PORTS k = Some port /\
               truthy (Some port) = true.
Proof.
  unfold slots. simpl.
  intros [<-|[<-|[<-|[<-|[]]]]]; eexists; split; reflexivity.
Qed.

Lemma first_match_in_keys (t : Profiles) n k :
  first_match t n = Some k -> In k (keys t).
Proof.
  induction t as [|[i pm] t IH]; simpl; [discriminate|].
  destruct (is_assigned pm && opt_eqb (exe_name pm) (Some n)).
  - intro E. inversion E. now left.
  - intro E. right. auto.
Qed.

(** A slot that passes the loop's test for a name gives the watcher a slot
    at or below it, with that slot's port. *)
Lemma matching_slot_selected (t : Profiles) n i pm :
  keys t = slots -> n <> "" ->
  dict_get t i = Some pm -> loop_test pm n = true ->
  exists k port,
    match_slot t (Some n) = Some k /\ (1 <= k <= i)%Z /\
    dict_get PROFILE_PORTS k = Some port /\
    select_port t (Some n) = Some port /\
    (forall st os, profiles (self st) = t ->
       fg_exe_seen (snd (iteration st os)) = Some n ->
       selected_port (snd (iteration st os)) = Some port /\
       (caught (snd (iteration st os)) = None ->
        last_sent (fst (iteration st os)) = Some port)).
Proof.
  intros K N G T.
  destruct (assigned_slot_found t n i pm) as [k [F L]];
    [rewrite K; apply slots_sorted|assumption|assumption|].
  assert (In k slots) as I
    by (rewrite <- K; eapply first_match_in_keys; eauto).
  destruct (port_of_slot k I) as [port [P Tp]].
  assert (match_slot t (Some n) = Some k) as M.
  { unfold match_slot. apply truthy_some in N. now rewrite N. }
  assert (select_port t (Some n) = Some port) as Sp
    by (unfold select_port; now rewrite M).
  exists k, port. repeat split; try assumption.
  - apply slot_in_range in I. lia.
  - rewrite iteration_port, H, H0. assumption.
  - intro C. apply iteration_completed in C. cbv zeta in C.
    destruct C as [_ [Ls _]]. rewrite Ls, iteration_port, H, H0, Sp.
    f_equal. unfold code_of. now rewrite Tp.
Qed.

Lemma foreground_hwnd_ret os h :
  GetForegroundWindow os = Ret h -> foreground_hwnd os = Some h.
Proof. unfold foreground_hwnd. now intros ->. Qed.

(** X4. After an executable is assigned to a slot from the file dialog,
    a tick whose foreground process runs that executable selects the port
    of a slot: that slot, or a lower one holding the same name.  This needs
    [str.lower] to be idempotent, since the stored name is lower-cased by
    [assign_by_exe] and again by [assign], and the watcher's once. *)
Theorem assigned_exe_is_matched (ops : list GuiOp) (i : Z) (path : string) :
  lower_idempotent -> (1 <= i <= 4)%Z -> path <> "" ->
  lower (basename path) <> "" ->
  let t := assign_by_exe (gui_steps initial_profiles ops) i path in
  let name := lower (basename path) in
  exists k port,
    match_slot t (Some name) = Some k /\ (1 <= k <= i)%Z /\
    dict_get PROFILE_PORTS k = Some port /\
    (forall st os h pid u,
       profiles (self st) = t ->
       GetForegroundWindow os = Ret h -> h <> 0%Z ->
       Some h <> _last_hwnd (self st) ->
       GetWindowThreadProcessId os h = Ret pid -> pid <> 0%Z ->
       Process os pid = Ret u -> exe os pid = Ret path ->
       fg_exe_seen (snd (iteration st os)) = Some name /\
       selected_port (snd (iteration st os)) = Some port /\
       (caught (snd (iteration st os)) = None ->
        last_sent (fst (iteration st os)) = Some port)).
Proof.
  intros Idem R Np Nn t name.
  destruct (reachable_slot ops i R) as [pm0 [G0 [I0 _]]].
  assert (dict_get t i
          = Some (assign pm0 (Some name) (Some path))) as G.
  { unfold t, assign_by_exe. apply String.eqb_neq in Np. rewrite Np.
    rewrite on_profile_same, G0. reflexivity. }
  assert (keys t = slots) as K.
  { unfold t, assign_by_exe. destruct (path =? "");
      [|rewrite on_profile_keys]; apply reachable_keys. }
  assert (loop_test (assign pm0 (Some name) (Some path)) name = true) as T.
  { assert (truthy (Some name) = true) as Tn by now apply truthy_some.
    assert (truthy (Some path) = true) as Tp by now apply truthy_some.
    assert (exe_name (assign pm0 (Some name) (Some path)) = Some name) as E.
    { unfold assign. cbn [exe_name]. rewrite Tn. cbn [option_map].
      unfold name. now rewrite Idem. }
    unfold loop_test, is_assigned. rewrite E, Tn. cbn [exe_path assign].
    rewrite Tp. apply opt_eqb_refl. }
  destruct (matching_slot_selected t name i _ K Nn G T)
    as [k [port [M [Rk [P [_ It]]]]]].
  exists k, port. repeat split; try assumption; try lia.
  all: assert (fg_exe_seen (snd (iteration st os)) = Some name) as Fg;
    [ destruct (iteration_cache st os) as [_ [_ C]];
      rewrite (foreground_hwnd_ret os h H0) in C;
      destruct (C h eq_refl H1 H2) as [_ [F _]]; rewrite F;
      unfold resolve_fg_exe, lookup_fg_exe, exe_or_denied;
      rewrite H3; simpl; apply Z.eqb_neq in H4; rewrite H4, H5; simpl;
      rewrite H6; reflexivity
    | ].
  - assumption.
  - now apply It.
  - now apply It.
Qed.

Lemma safe_get_agrees os h name path :
  GetForegroundWindow os = Ret h ->
  safe_get_foreground_process os = Ret (name, path) ->
  name = option_map (fun p => lower (basename p)) path /\
  (h <> 0%Z -> resolve_fg_exe os h = name).
Proof.
  unfold safe_get_foreground_process, get_foreground_process_body,
    resolve_fg_exe, lookup_fg_exe, exe_or_denied.
  intros -> . simpl. destruct (Z.eqb_spec h 0) as [->|N].
  - intro E. inversion E. split; [reflexivity|]. intro X. contradiction.
  - destruct (GetWindowThreadProcessId os h) as [pid|e]; simpl.
    2:{ intro E. inversion E. now split. }
    destruct (pid =? 0)%Z.
    { intro E. inversion E. now split. }
    destruct (Process os pid) as [u|e]; simpl.
    2:{ intro E. inversion E. now split. }
    destruct (exe os pid) as [p|[]]; simpl; intro E; inversion E;
      now split.
Qed.

(** X5. Assignment by click and the watcher resolve the foreground process
    alike.  When the click finds no process with a name and a path the
    dictionary is left as it was; otherwise the slot holds the name the
    watcher resolves for the same window and the full path, and a tick that
    resolves this name selects that slot or a lower one of the same name. *)
Theorem click_assignment_is_matched (ops : list GuiOp) (i : Z) (os : OS)
    (h : Z) (name path : option string) :
  lower_idempotent -> (1 <= i <= 4)%Z ->
  GetForegroundWindow os = Ret h ->
  safe_get_foreground_process os = Ret (name, path) ->
  let t0 := gui_steps initial_profiles ops in
  let t := assign_by_click t0 i os in
  if truthy name && truthy path then
    exists n p k port,
      name = Some n /\ path = Some p /\
      resolve_fg_exe os h = Some n /\
      dict_get t i
      = Some {| idx := i; exe_name := Some n; exe_path := Some p |} /\
      match_slot t (Some n) = Some k /\ (1 <= k <= i)%Z /\
      select_port t (Some n) = Some port
  else t = t0.
Proof.
  intros Idem R Hh Hs t0 t. unfold t, assign_by_click. rewrite Hs.
  destruct (truthy name && truthy path) eqn:T; [|reflexivity].
  apply andb_true_iff in T. destruct T as [Tn Tp].
  destruct name as [n|]; [|discriminate].
  destruct path as [p|]; [|discriminate].
  destruct (safe_get_agrees os h _ _ Hh Hs) as [En Er]. simpl in En.
  assert (h <> 0%Z) as Nh.
  { intros ->. revert Hs.
    unfold safe_get_foreground_process, get_foreground_process_body.
    rewrite Hh. simpl. discriminate. }
  destruct (reachable_slot ops i R) as [pm0 [G0 [I0 _]]]. fold t0 in G0.
  assert (lower n = n) as Ln by (inversion En; apply Idem).
  assert (assign pm0 (Some n) (Some p)
          = {| idx := i; exe_name := Some n; exe_path := Some p |}) as A.
  { unfold assign. rewrite Tn, I0. simpl. now rewrite Ln. }
  set (t' := on_profile t0 i (fun pm => assign pm (Some n) (Some p))).
  assert (dict_get t' i
          = Some {| idx := i; exe_name := Some n; exe_path := Some p |}) as G.
  { unfold t'. rewrite on_profile_same, G0. simpl. now rewrite A. }
  assert (keys t' = slots) as K
    by (unfold t'; rewrite on_profile_keys; apply reachable_keys).
  assert (n <> "") as Nn by now apply truthy_some.
  destruct (matching_slot_selected t' n i _ K Nn G)
    as [k [port [M [Rk [_ [Sp _]]]]]].
  { unfold loop_test, is_assigned. simpl. simpl in Tn, Tp.
    rewrite Tn, Tp. simpl. apply String.eqb_refl. }
  exists n, p, k, port. repeat split; try assumption; try lia.
  now apply Er.
Qed.

(** X6. Clearing a slot takes it out of the matching and touches no other
    match: the cleared slot is matched by no foreground executable, and an
    executable that was matched to another slot is matched to it still. *)
Theorem cleared_slot_unmatched (ops : list GuiOp) (i : Z)
    (fg_exe : option string) :
  let t := gui_steps initial_profiles ops in
  match_slot (clear_profile t i) fg_exe <> Some i /\
  (forall k, match_slot t fg_exe = Some k -> k <> i ->
             match_slot (clear_profile t i) fg_exe = Some k).
Proof.
  intro t.
  assert (keys (clear_profile t i) = slots) as K
    by (unfold clear_profile; rewrite on_profile_keys; apply reachable_keys).
  assert (forall pm n, loop_test (clear pm) n = false) as Tc
    by reflexivity.
  assert (forall pm, dict_get (clear_profile t i) i = Some pm ->
                     forall n, loop_test pm n = false) as At.
  { intros pm G n. unfold clear_profile in G. rewrite on_profile_same in G.
    destruct (dict_get t i); [|discriminate]. inversion G. apply Tc. }
  unfold match_slot. destruct fg_exe as [n|]; [|split; [|intros k]; discriminate].
  destruct (truthy (Some n)); [|split; [|intros k]; discriminate].
  split.
  - intro M. apply first_match_some in M; [|rewrite K; apply slots_sorted].
    destruct M as [[pm [G T]] _]. rewrite (At pm G n) in T. discriminate.
  - intros k M N.
    apply first_match_some in M;
      [|unfold t; rewrite reachable_keys; apply slots_sorted].
    destruct M as [[pm [G T]] Low].
    apply (lowest_match_unique _ n k pm);
      [rewrite K; apply slots_sorted| |assumption|].
    + unfold clear_profile. now rewrite on_profile_other.
    + intros j pm' Lt G'. destruct (Z.eq_dec j i) as [->|Nj].
      * now apply At.
      * unfold clear_profile in G'. rewrite on_profile_other in G'
          by assumption. eauto.
Qed.

(** ** What a run sends *)

Lemma code_is_known (items : Profiles) fg_exe :
  In (code_of (select_port items fg_exe)) all_codes.
Proof.
  unfold select_port. destruct (match_slot items fg_exe) as [i|];
    [|now left].
  unfold PROFILE_PORTS, all_codes. simpl.
  repeat match goal with
         | |- context [if ?c then _ else _] => destruct c
         end; simpl; auto 6.
Qed.

(** X7. Whatever the profiles, the interface and the system do, every code
    a run hands to the notifier is one of "1s", "2s", "3s", "4s", "5s". *)
Theorem sent_codes_are_known (st : Loop) (world : list Tick) :
  Forall (fun l => forall c, sent l = Some c -> In c all_codes)
    (snd (watcher_iterations st world)).
Proof.
  revert st. induction world as [|tk world IH]; intro st; [constructor|].
  destruct (stop_is_set tk) eqn:S.
  - rewrite watcher_iterations_stop by assumption. constructor.
  - rewrite watcher_iterations_step by assumption. simpl snd.
    constructor; [|apply IH].
    intros c E.
    destruct (iteration_sent (meet st tk) (system tk)) as [N|N];
      rewrite N in E; [discriminate|].
    inversion E. rewrite iteration_port. apply code_is_known.
Qed.

(** What one iteration does to [last_sent]: it sends nothing and leaves it,
    or sends a code that differs from it and stores that code. *)
Lemma iteration_send_or_keep st os :
  (sent (snd (iteration st os)) = None /\
   last_sent (fst (iteration st os)) = last_sent st) \/
  (exists c, sent (snd (iteration st os)) = Some c /\
             Some c <> last_sent st /\
             last_sent (fst (iteration st os)) = Some c).
Proof.
  destruct (caught (snd (iteration st os))) as [e|] eqn:C.
  - left. apply iteration_caught in C. tauto.
  - apply iteration_completed in C. cbv zeta in C.
    destruct C as [S [L _]]. rewrite S, L.
    destruct (opt_eqb _ (last_sent st)) eqn:E.
    + left. apply opt_eqb_eq in E. auto.
    + right. apply opt_eqb_neq in E. eauto.
Qed.

Lemma no_repeat_nth codes : forall prev i c c',
  no_repeat prev codes ->
  nth_error codes i = Some c -> nth_error codes (S i) = Some c' -> c <> c'.
Proof.
  induction codes as [|c0 codes IH]; intros prev i c c' N H H';
    [destruct i; discriminate|].
  destruct N as [_ N]. destruct i as [|i]; simpl in H, H'.
  - inversion H; subst c0. destruct codes as [|c1 codes]; [discriminate|].
    inversion H'; subst c1. destruct N as [N _]. congruence.
  - eapply IH; eauto.
Qed.

Lemma sends_run world : forall st,
  no_repeat (last_sent st) (sends (snd (watcher_iterations st world))) /\
  last_sent (fst (watcher_iterations st world))
  = last (map Some (sends (snd (watcher_iterations st world))))
      (last_sent st).
Proof.
  induction world as [|tk world IH]; intro st; [simpl; auto|].
  destruct (stop_is_set tk) eqn:S.
  - rewrite watcher_iterations_stop by assumption. simpl. auto.
  - rewrite watcher_iterations_step by assumption. cbn [fst snd].
    destruct (IH (fst (iteration (meet st tk) (system tk)))) as [N L].
    unfold sends in *. cbn [flat_map].
    destruct (iteration_send_or_keep (meet st tk) (system tk))
      as [[E K]|[c [E [D K]]]]; rewrite E; cbn [app]; rewrite K in N, L;
      change (last_sent (meet st tk)) with (last_sent st) in *.
    + auto.
    + split; [split; assumption|]. rewrite L. cbn [map].
      symmetry. apply last_cons_default.
Qed.

(** X8. A run never hands the same code to the notifier twice in a row,
    whatever changes in the profiles and whatever is raised on the way: the
    first code sent differs from the code stored at the start, each later
    one from the one sent before it, and the code stored at the end is the
    last one sent. *)
Theorem never_sends_twice_in_a_row (st : Loop) (world : list Tick) :
  let run := watcher_iterations st world in
  no_repeat (last_sent st) (sends (snd run)) /\
  (forall i c c',
     nth_error (sends (snd run)) i = Some c ->
     nth_error (sends (snd run)) (S i) = Some c' -> c <> c') /\
  last_sent (fst run) = last (map Some (sends (snd run))) (last_sent st).
Proof.
  intro run. destruct (sends_run world st) as [N L]. fold run in N, L.
  split; [assumption|split; [|assumption]].
  intros i c c'. now apply no_repeat_nth with (prev := last_sent st).
Qed.

Lemma iteration_with_post st os r :
  fst (iteration st (with_post os r)) = fst (iteration st os) /\
  sent (snd (iteration st (with_post os r))) = sent (snd (iteration st os)) /\
  caught (snd (iteration st (with_post os r)))
  = caught (snd (iteration st os)) /\
  slept (snd (iteration st (with_post os r)))
  = slept (snd (iteration st os)).
Proof.
  unfold iteration.
  change (poll_foreground (self st) (with_post os r))
    with (poll_foreground (self st) os).
  destruct (poll_foreground (self st) os) as [[self1 fg] res].
  change (notify (with_post os r)) with (notify os).
  destruct (notify os (select_port (profiles self1) fg) (last_sent st))
    as [[out ls]|e]; simpl; auto.
Qed.

(** X9. The fate of the POST changes nothing in the loop: with other
    outcomes of the requests, tick by tick, a run ends in the same state,
    hands the same codes to the notifier on the same ticks, and sleeps the
    same.  A code whose POST failed is not sent again. *)
Theorem post_outcome_is_ignored (st : Loop) (world : list Tick)
    (posts : list (Res unit)) :
  let run := watcher_iterations st world in
  let run' := watcher_iterations st (replace_posts world posts) in
  fst run' = fst run /\
  map sent (snd run') = map sent (snd run) /\
  map caught (snd run') = map caught (snd run) /\
  map slept (snd run') = map slept (snd run).
Proof.
  cbv zeta. revert st posts.
  induction world as [|tk world IH]; intros st posts.
  - destruct posts; simpl; auto.
  - destruct posts as [|r posts]; [auto|]. cbn [replace_posts].
    set (tk' := {| stop_is_set := stop_is_set tk; gui := gui tk;
                   system := with_post (system tk) r |}).
    assert (meet st tk' = meet st tk) as M by reflexivity.
    destruct (stop_is_set tk) eqn:S.
    + rewrite !watcher_iterations_stop by (assumption || reflexivity).
      auto.
    + rewrite !watcher_iterations_step by (assumption || reflexivity).
      cbn [fst snd map]. rewrite M. cbn [system tk'].
      destruct (iteration_with_post (meet st tk) (system tk) r)
        as [E1 [E2 [E3 E4]]].
      rewrite E1, E2, E3, E4.
      destruct (IH (fst (iteration (meet st tk) (system tk))) posts)
        as [I1 [I2 [I3 I4]]].
      rewrite I1, I2, I3, I4. auto.
Qed.

(** ** The cache over restarts *)

Lemma iteration_cache_ok st os :
  cache_ok (self st) -> cache_ok (self (fst (iteration st os))).
Proof.
  intro C. destruct (iteration_poll st os) as [P _].
  assert (self (fst (iteration st os))
          = fst (fst (poll_foreground (self st) os))) as E
    by now rewrite <- P.
  rewrite E. unfold poll_foreground.
  destruct (foreground_hwnd os) as [h|]; cbn [hwnd_truthy].
  - destruct (Z.eqb_spec h 0) as [->|N]; cbn [negb].
    + split; [reflexivity|discriminate].
    + destruct (negb (hwnd_eqb (Some h) (_last_hwnd (self st))));
        cbn [fst]; [|assumption].
      split; simpl; [discriminate|]. intro X. inversion X. contradiction.
  - split; [reflexivity|discriminate].
Qed.

Lemma watcher_iterations_cache_ok world : forall st,
  cache_ok (self st) -> cache_ok (self (fst (watcher_iterations st world))).
Proof.
  induction world as [|tk world IH]; intros st C; [assumption|].
  destruct (stop_is_set tk) eqn:S.
  - rewrite watcher_iterations_stop by assumption. exact C.
  - rewrite watcher_iterations_step by assumption. cbn [fst].
    apply IH. apply iteration_cache_ok. exact C.
Qed.

(** X10. However often the watcher is started and stopped, the cache of
    the application never holds an identity without a window handle, and
    never holds the null handle. *)
Theorem cache_stays_consistent (loaded : Profiles)
    (worlds : list (list Tick)) :
  cache_ok (sessions (init_app loaded) worlds).
Proof.
  unfold sessions.
  assert (cache_ok (init_app loaded)) as C
    by (split; [reflexivity|discriminate]).
  revert C. generalize (init_app loaded).
  induction worlds as [|world worlds IH]; intros app C; simpl;
    [assumption|].
  apply IH. rewrite watcher_loop_unfold. cbn [fst].
  now apply watcher_iterations_cache_ok.
Qed.

(** ** The configuration file *)

Lemma from_to_dict i pm :
  lower_idempotent -> lower_keeps_nonempty ->
  kept_at (i, pm) -> from_dict i (to_dict pm) = pm.
Proof.
  intros Idem Keep [I K]. destruct pm as [j name path].
  unfold kept in K. cbn [fst snd idx exe_name exe_path] in I, K.
  subst j. unfold from_dict, to_dict.
  cbn [cfg_exe_name cfg_exe_path exe_name exe_path].
  destruct K as [[-> ->]|[T K]]; [reflexivity|]. rewrite T.
  unfold assign, new_profile. cbn [idx]. f_equal.
  destruct K as [->|[s [N ->]]]; [reflexivity|].
  assert (truthy (Some (lower s)) = true) as Tl
    by (apply truthy_some; now apply Keep).
  rewrite Tl. cbn [option_map]. now rewrite Idem.
Qed.

(** Saving the settings of a reachable dictionary writes data that a new
    application reads back as the same settings. *)
Lemma save_then_load (self : Settings) (file : File) (io : SaveIO) :
  lower_idempotent -> lower_keeps_nonempty ->
  (exists ops, table self = gui_steps initial_profiles ops) ->
  exists data,
    _save_profiles_to_config self file io = Ret (save_config file data io) /\
    new_settings (Holds data) = self.
Proof.
  intros Idem Keep [ops E]. destruct self as [lang t]. simpl in E.
  pose proof (reachable_keys ops) as K.
  pose proof (reachable_kept ops) as F.
  rewrite <- E in K, F. clear E ops.
  destruct t as [|[k1 p1] [|[k2 p2] [|[k3 p3] [|[k4 p4] [|? ?]]]]];
    try discriminate.
  unfold slots in K. simpl in K. inversion K; subst. clear K.
  inversion F as [|? ? F1 Fa]; subst. inversion Fa as [|? ? F2 Fb]; subst.
  inversion Fb as [|? ? F3 Fc]; subst.
  inversion Fc as [|? ? F4 _]; subst.
  eexists. split; [reflexivity|].
  unfold new_settings, _load_profiles_from_config.
  cbn -[from_dict to_dict].
  rewrite (from_to_dict 1 p1), (from_to_dict 2 p2), (from_to_dict 3 p3),
    (from_to_dict 4 p4) by assumption.
  reflexivity.
Qed.

(** X11. Saving and loading agree.  After a save that goes through, a new
    application reads back the language and, slot by slot, the profiles that
    were saved, whatever the interface had done to them.  This needs
    [str.lower] to be idempotent and to keep non-empty names non-empty,
    since loading lower-cases the saved names once more. *)
Theorem config_round_trip (ops : list GuiOp) (lang : option string)
    (file : File) :
  lower_idempotent -> lower_keeps_nonempty ->
  let self := {| language := lang;
                 table := gui_steps initial_profiles ops |} in
  exists file',
    _save_profiles_to_config self file WriteDone = Ret file' /\
    new_settings file' = self.
Proof.
  intros Idem Keep self.
  destruct (save_then_load self file WriteDone Idem Keep) as [data [S L]];
    [now exists ops|].
  exists (Holds data). split; assumption.
Qed.

(** X12. The file never reads back as settings nobody saved.  After any
    history of saves, each of which may go through, fail before the file is
    opened, or fail during the dump, a new application gets the settings of
    the file before the history, the defaults, or exactly the settings of
    one of the saves. *)
Theorem saved_config_is_never_mixed (saves : list (Settings * SaveIO))
    (file0 : File) :
  lower_idempotent -> lower_keeps_nonempty ->
  Forall (fun s => exists ops,
            table (fst s) = gui_steps initial_profiles ops) saves ->
  exists file,
    save_all file0 saves = Ret file /\
    (new_settings file = new_settings file0 \/
     new_settings file = default_settings \/
     exists self, In self (map fst saves) /\ new_settings file = self).
Proof.
  intros Idem Keep. revert file0.
  induction saves as [|[self io] saves IH]; intros file0 F.
  - exists file0. split; [reflexivity|now left].
  - inversion F as [|? ? R F']; subst. simpl in R.
    destruct (save_then_load self file0 io Idem Keep R) as [data [S L]].
    destruct (IH (save_config file0 data io) F') as [file [A B]].
    exists file. split.
    + cbn [save_all]. rewrite S. exact A.
    + destruct B as [B|[B|[s [I B]]]].
      * rewrite B. destruct io; cbn [save_config].
        -- right. right. exists self. split; [now left|assumption].
        -- now left.
        -- right. now left.
      * right. now left.
      * right. right. exists s. split; [now right|assumption].
Qed.

(** ** Assignments that reach a running watcher, and loaded profiles *)

Lemma assign_by_exe_slot_test (ops : list GuiOp) (i : Z) (path : string) :
  lower_idempotent -> (1 <= i <= 4)%Z -> path <> "" ->
  lower (basename path) <> "" ->
  let t := assign_by_exe (gui_steps initial_profiles ops) i path in
  keys t = slots /\
  exists pm, dict_get t i = Some pm /\
             loop_test pm (lower (basename path)) = true.
Proof.
  intros Idem R Np Nn t.
  destruct (reachable_slot ops i R) as [pm0 [G0 _]].
  split.
  - unfold t, assign_by_exe. destruct (path =? "");
      [|rewrite on_profile_keys]; apply reachable_keys.
  - exists (assign pm0 (Some (lower (basename path))) (Some path)). split.
    + unfold t, assign_by_exe. apply String.eqb_neq in Np. rewrite Np.
      rewrite on_profile_same, G0. reflexivity.
    + assert (truthy (Some (lower (basename path))) = true) as Tn
        by now apply truthy_some.
      assert (truthy (Some path) = true) as Tp by now apply truthy_some.
      unfold loop_test, is_assigned, assign. cbn [exe_name exe_path].
      rewrite Tn. cbn [option_map]. rewrite Idem, Tn, Tp.
      apply opt_eqb_refl.
Qed.

(** X13. An assignment made while the watcher runs takes effect on the next
    tick, without a change of window: if the executable assigned through the
    file dialog is the one cached for the window still in front, the next
    iteration resolves nothing, selects the port of the assigned slot or of a
    lower slot holding the same name, and, when it completes and that port
    is not the one last sent, sends it. *)
Theorem assignment_while_running (ops : list GuiOp) (i : Z) (path : string)
    (st : Loop) (tk : Tick) (world : list Tick) :
  lower_idempotent -> (1 <= i <= 4)%Z -> path <> "" ->
  lower (basename path) <> "" ->
  profiles (self st) = gui_steps initial_profiles ops ->
  stop_is_set tk = false -> gui tk = [AssignByExe i path] ->
  hwnd_truthy (foreground_hwnd (system tk)) = true ->
  foreground_hwnd (system tk) = _last_hwnd (self st) ->
  _last_fg_exe (self st) = Some (lower (basename path)) ->
  exists log rest k port,
    snd (watcher_iterations st (tk :: world)) = log :: rest /\
    resolver_called log = false /\
    (1 <= k <= i)%Z /\ dict_get PROFILE_PORTS k = Some port /\
    selected_port log = Some port /\
    (caught log = None -> Some port <> last_sent st -> sent log = Some port).
Proof.
  intros Idem R Np Nn Hp Hs Hg Ht Hh Hc.
  rewrite watcher_iterations_step by assumption. cbn [snd].
  set (st0 := meet st tk).
  assert (profiles (self st0)
          = assign_by_exe (gui_steps initial_profiles ops) i path) as P
    by (unfold st0, meet; cbn [self profiles set_profiles];
        rewrite Hg, Hp; reflexivity).
  destruct (iteration_cache st0 (system tk)) as [_ [C _]].
  destruct (C Ht Hh) as [Rc [Fg _]].
  change (_last_fg_exe (self st0)) with (_last_fg_exe (self st)) in Fg.
  rewrite Hc in Fg.
  destruct (assign_by_exe_slot_test ops i path Idem R Np Nn)
    as [K [pm [G T]]].
  destruct (matching_slot_selected _ _ i pm K Nn G T)
    as [k [port [_ [Rk [Pk [_ It]]]]]].
  destruct (It st0 (system tk) P Fg) as [Sp Ls].
  exists (snd (iteration st0 (system tk))). eexists. exists k, port.
  repeat split; try assumption; try lia.
  intros Cn D. pose proof (Ls Cn) as E.
  apply iteration_completed in Cn. cbv zeta in Cn.
  destruct Cn as [S [L _]]. rewrite L in E. rewrite E in S.
  change (last_sent st0) with (last_sent st) in S.
  apply opt_eqb_neq in D. now rewrite D in S.
Qed.

(** X14. Names in the configuration file are matched whatever their case:
    a profile loaded into a slot from an entry with a name and a path is
    stored under the lower-cased name, and a foreground executable of that
    lower-cased name is matched to this slot or to a lower one holding the
    same name. *)
Theorem loaded_profile_is_matched (ops : list GuiOp) (i : Z)
    (d : ConfigEntry) (s p : string) :
  (1 <= i <= 4)%Z -> cfg_exe_name d = Some s -> cfg_exe_path d = Some p ->
  s <> "" -> p <> "" -> lower s <> "" ->
  let t := load_profile (gui_steps initial_profiles ops) i d in
  dict_get t i
  = Some {| idx := i; exe_name := Some (lower s); exe_path := Some p |} /\
  exists k port,
    match_slot t (Some (lower s)) = Some k /\ (1 <= k <= i)%Z /\
    select_port t (Some (lower s)) = Some port.
Proof.
  intros R En Ep Ns Np Nl t.
  assert (truthy (Some s) = true) as Ts by now apply truthy_some.
  assert (truthy (Some p) = true) as Tp by now apply truthy_some.
  assert (truthy (Some (lower s)) = true) as Tl by now apply truthy_some.
  assert (keys t = slots) as K
    by (apply (gui_step_keys _ (LoadProfile i d)), reachable_keys).
  assert (from_dict i d
          = {| idx := i; exe_name := Some (lower s); exe_path := Some p |})
    as Fd.
  { unfold from_dict. rewrite Ep, Tp, En. unfold assign. now rewrite Ts. }
  assert (dict_get t i
          = Some {| idx := i; exe_name := Some (lower s);
                    exe_path := Some p |}) as G.
  { unfold t, load_profile.
    assert (((1 <=? i) && (i <? 5))%Z = true) as Rb
      by (apply andb_true_iff; split;
          [apply Z.leb_le|apply Z.ltb_lt]; lia).
    rewrite Rb, Fd. apply dict_get_set_same.
    rewrite reachable_keys. unfold slots. simpl.
    assert (i = 1 \/ i = 2 \/ i = 3 \/ i = 4)%Z by lia. intuition. }
  split; [exact G|].
  destruct (matching_slot_selected t (lower s) i _ K Nl G)
    as [k [port [M [Rk [_ [Sp _]]]]]].
  { unfold loop_test, is_assigned. cbn [exe_name exe_path].
    rewrite Tl, Tp. apply opt_eqb_refl. }
  exists k, port. repeat split; try assumption; lia.
Qed.

End Results.

(** * Concrete runs *)

Example sample_run_sent :
  map sent (snd sample_run)
  = [Some "1s"; Some "2s"; None; Some "3s"; Some "1s"].
Proof. reflexivity. Qed.

(** The endpoint is down on the second tick: the code counts as sent. *)
Example sample_run_posted :
  map posted (snd sample_run) = [true; false; false; true; true] /\
  last_sent (fst sample_run) = Some "1s".
Proof. split; reflexivity. Qed.

(** The handles h1, h1, h2, h1: the process is resolved on the first, third
    and fourth tick. *)
Example lookups_h1_h1_h2_h1 :
  map resolver_called
    (snd (@watcher_iterations sample_library sample_start
            (map quiet [ system_showing 11 game_path;
                         system_showing 11 game_path;
                         system_showing 12 editor_path;
                         system_showing 11 game_path ])))
  = [true; false; true; true].
Proof. reflexivity. Qed.

Lemma debounce_correct_witness :
  Forall (fun l => caught l = None) (snd sample_run) /\
  map sent (snd sample_run)
  = debounce None (map (fun l => code_of (selected_port l)) (snd sample_run)).
Proof.
  assert (Forall (fun l => caught l = None) (snd sample_run)) as F
    by (repeat constructor).
  split; [exact F|].
  exact (proj1 (proj2 (@debounce_correct sample_library)
                  sample_start sample_world F)).
Defined.

Lemma scenario_dispatch_witness :
  game_path <> "" /\ editor_path <> "" /\
  map fg_exe_seen
    (snd (@_watcher_loop sample_library sample_app
            (map quiet sample_systems)))
  = [None; Some "game.exe"; Some "game.exe"; Some "editor.exe";
     Some "unknown.exe"] /\
  map sent
    (snd (@_watcher_loop sample_library sample_app
            (map quiet sample_systems)))
  = [Some "1s"; Some "2s"; None; Some "3s"; Some "1s"].
Proof.
  assert (game_path <> "") as G by discriminate.
  assert (editor_path <> "") as E by discriminate.
  split; [exact G|split; [exact E|split; [reflexivity|]]].
  apply (@scenario_dispatch sample_library game_path editor_path
           sample_app sample_systems G E eq_refl).
  - repeat constructor.
  - reflexivity.
Defined.

(** C3 fails as stated: after the stop the cache still holds the game's
    window, and a loop started again with that handle in front, which now
    belongs to the editor, resolves nothing and acts on the cached game. *)
Lemma restart_keeps_cache :
  ~ @restart_is_fresh sample_library sample_app
      game_then_stop same_handle_again.
Proof.
  unfold restart_is_fresh. intros [H _]. vm_compute in H. discriminate.
Qed.

Example restart_uses_cached_identity :
  _last_hwnd stopped_app = Some 11%Z /\
  _last_fg_exe stopped_app = Some "game.exe" /\
  map resolver_called
    (snd (@_watcher_loop sample_library stopped_app same_handle_again))
  = [false] /\
  map sent
    (snd (@_watcher_loop sample_library stopped_app same_handle_again))
  = [Some "2s"] /\
  map sent
    (snd (@_watcher_loop sample_library
            (set_cache stopped_app None None) same_handle_again))
  = [Some "3s"].
Proof. repeat split. Qed.

Lemma restart_resets_last_sent_only_witness :
  stop_is_set (quiet (system_showing 11 editor_path)) = false /\
  exists log rest,
    snd (@_watcher_loop sample_library stopped_app same_handle_again)
    = log :: rest /\
    resolver_called log
    = hwnd_truthy (hwnd_seen log)
      && negb (hwnd_eqb (hwnd_seen log) (_last_hwnd stopped_app)) /\
    (hwnd_truthy (hwnd_seen log) = true ->
     hwnd_seen log = _last_hwnd stopped_app ->
     fg_exe_seen log = _last_fg_exe stopped_app) /\
    (caught log = None -> sent log = Some (code_of (selected_port log))).
Proof.
  split; [reflexivity|].
  exact (@restart_resets_last_sent_only sample_library sample_app
           game_then_stop (quiet (system_showing 11 editor_path)) []
           eq_refl).
Defined.

(** C7 fails as stated, both ways.  When the foreground query raises, the
    iteration matches nothing but sleeps for the usual interval.  When the
    sender thread cannot be started the loop sleeps longer, but the iteration
    had matched slot 1 and was sending its code. *)
Lemma error_not_treated_as_no_match :
  ~ @error_treated_as_no_match sample_library sample_start
      (query_failing (system_showing 11 game_path)) /\
  ~ @error_treated_as_no_match sample_library sample_start
      (threads_exhausted (system_showing 11 game_path)).
Proof.
  split; intro H.
  - assert (CHECK_INTERVAL
            < slept (snd (@iteration sample_library sample_start
                            (query_failing (system_showing 11 game_path)))))%Z
      as L by (apply H; left; eexists; reflexivity).
    vm_compute in L. discriminate.
  - assert (selected_port
              (snd (@iteration sample_library sample_start
                      (threads_exhausted (system_showing 11 game_path))))
            = None)
      as M by (apply H; right; eexists; reflexivity).
    vm_compute in M. discriminate.
Qed.

(** Two tables that differ in the paths of their assigned slots. *)
Lemma match_ignores_paths_witness :
  differ_only_in_paths sample_profiles
    (scenario_profiles "E:\game.exe" "E:\editor.exe") /\
  forall fg_exe,
    match_slot sample_profiles fg_exe
    = match_slot (scenario_profiles "E:\game.exe" "E:\editor.exe") fg_exe /\
    select_port sample_profiles fg_exe
    = select_port (scenario_profiles "E:\game.exe" "E:\editor.exe") fg_exe.
Proof.
  assert (differ_only_in_paths sample_profiles
            (scenario_profiles "E:\game.exe" "E:\editor.exe")) as D.
  { unfold differ_only_in_paths, sample_profiles, scenario_profiles.
    constructor; [split; [reflexivity|right; repeat split]|].
    constructor; [split; [reflexivity|right; repeat split]|].
    constructor; [split; [reflexivity|now left]|].
    constructor; [split; [reflexivity|now left]|].
    constructor. }
  split; [exact D|].
  exact (proj2 (match_ignores_paths sample_profiles _ D)).
Defined.

(** * Concrete runs for the further results *)

Lemma lower_ascii_char_idempotent c :
  lower_ascii_char (lower_ascii_char c) = lower_ascii_char c.
Proof. destruct c as [[] [] [] [] [] [] [] []]; reflexivity. Qed.

Lemma sample_lower_idempotent : @lower_idempotent sample_library.
Proof.
  intro s. simpl. induction s as [|c s IH]; simpl; [reflexivity|].
  now rewrite lower_ascii_char_idempotent, IH.
Qed.

Lemma sample_lower_keeps_nonempty : @lower_keeps_nonempty sample_library.
Proof. intros [|c s] N; simpl; [contradiction|discriminate]. Qed.

Lemma gui_step_other_slots_witness :
  2%Z <> op_slot (ClearProfile 1) /\
  dict_get (@gui_step sample_library sample_profiles (ClearProfile 1)) 2
  = dict_get sample_profiles 2.
Proof.
  assert (2%Z <> op_slot (ClearProfile 1)) as N by discriminate.
  split; [exact N|].
  exact (@gui_step_other_slots sample_library sample_profiles
           (ClearProfile 1) 2 N).
Defined.

Lemma assigned_exe_is_matched_witness :
  @lower_idempotent sample_library /\ (1 <= 2 <= 4)%Z /\
  game_path <> "" /\ lower_ascii (basename_nt game_path) <> "" /\
  exists k port,
    match_slot
      (@assign_by_exe sample_library initial_profiles 2 game_path)
      (Some "game.exe") = Some k /\
    (1 <= k <= 2)%Z /\ dict_get PROFILE_PORTS k = Some port.
Proof.
  assert (1 <= 2 <= 4)%Z as R by lia.
  assert (game_path <> "") as Np by discriminate.
  assert (lower_ascii (basename_nt game_path) <> "") as Nn by discriminate.
  split; [exact sample_lower_idempotent|].
  split; [exact R|split; [exact Np|split; [exact Nn|]]].
  destruct (@assigned_exe_is_matched sample_library [] 2 game_path
              sample_lower_idempotent R Np Nn) as [k [port [M [Rk [P _]]]]].
  exists k, port. split; [exact M|split; [exact Rk|exact P]].
Defined.

Lemma click_assignment_is_matched_witness :
  @lower_idempotent sample_library /\ (1 <= 3 <= 4)%Z /\
  GetForegroundWindow (system_showing 11 game_path) = Ret 11%Z /\
  @safe_get_foreground_process sample_library (system_showing 11 game_path)
  = Ret (Some "game.exe", Some game_path) /\
  exists k,
    match_slot
      (@assign_by_click sample_library sample_profiles 3
         (system_showing 11 game_path))
      (Some "game.exe") = Some k /\
    (1 <= k <= 3)%Z.
Proof.
  assert (1 <= 3 <= 4)%Z as R by lia.
  split; [exact sample_lower_idempotent|].
  split; [exact R|split; [reflexivity|split; [reflexivity|]]].
  pose proof (@click_assignment_is_matched sample_library
                [AssignByExe 1 game_path; AssignByExe 2 editor_path] 3
                (system_showing 11 game_path) 11
                (Some "game.exe") (Some game_path)
                sample_lower_idempotent R eq_refl eq_refl) as H.
  cbv zeta in H.
  change (truthy (Some "game.exe") && truthy (Some game_path)) with true in H.
  cbv iota in H.
  destruct H as [n [p [k [port [En [_ [_ [_ [M [Rk _]]]]]]]]]].
  inversion En; subst n.
  exists k. split; [exact M|exact Rk].
Defined.

Lemma config_round_trip_witness :
  @lower_idempotent sample_library /\ @lower_keeps_nonempty sample_library /\
  exists file',
    _save_profiles_to_config
      {| language := Some "tr";
         table := @gui_steps sample_library initial_profiles
                    [AssignByExe 1 game_path; ClearProfile 2] |}
      Missing WriteDone = Ret file' /\
    @new_settings sample_library file'
    = {| language := Some "tr";
         table := @gui_steps sample_library initial_profiles
                    [AssignByExe 1 game_path; ClearProfile 2] |}.
Proof.
  split; [exact sample_lower_idempotent|].
  split; [exact sample_lower_keeps_nonempty|].
  exact (@config_round_trip sample_library
           [AssignByExe 1 game_path; ClearProfile 2] (Some "tr") Missing
           sample_lower_idempotent sample_lower_keeps_nonempty).
Defined.

Lemma saved_config_is_never_mixed_witness :
  @lower_idempotent sample_library /\ @lower_keeps_nonempty sample_library /\
  exists file,
    save_all Missing
      [ ({| language := Some "tr"; table := initial_profiles |}, WriteDone);
        ({| language := Some "en";
            table := @gui_steps sample_library initial_profiles
                       [AssignByExe 1 game_path] |}, DumpFails) ]
    = Ret file /\
    @new_settings sample_library file = default_settings.
Proof.
  split; [exact sample_lower_idempotent|].
  split; [exact sample_lower_keeps_nonempty|].
  destruct (@saved_config_is_never_mixed sample_library
              [ ({| language := Some "tr"; table := initial_profiles |},
                 WriteDone);
                ({| language := Some "en";
                    table := @gui_steps sample_library initial_profiles
                               [AssignByExe 1 game_path] |}, DumpFails) ]
              Missing sample_lower_idempotent sample_lower_keeps_nonempty)
    as [file [S _]].
  - constructor; [now exists []|].
    constructor; [now exists [AssignByExe 1 game_path]|constructor].
  - exists file. split; [exact S|].
    cbv in S. inversion S. reflexivity.
Defined.

Lemma assignment_while_running_witness :
  exists log rest k port,
    snd (@watcher_iterations sample_library
           {| self := set_cache (init_app initial_profiles) (Some 11%Z)
                        (Some "game.exe");
              last_sent := Some "1s" |}
           [ {| stop_is_set := false; gui := [AssignByExe 3 game_path];
                system := system_showing 11 game_path |} ])
    = log :: rest /\
    resolver_called log = false /\
    (1 <= k <= 3)%Z /\ dict_get PROFILE_PORTS k = Some port /\
    selected_port log = Some port.
Proof.
  assert (1 <= 3 <= 4)%Z as R by lia.
  assert (game_path <> "") as Np by discriminate.
  assert (lower_ascii (basename_nt game_path) <> "") as Nn by discriminate.
  destruct (@assignment_while_running sample_library [] 3 game_path
              {| self := set_cache (init_app initial_profiles) (Some 11%Z)
                           (Some "game.exe");
                 last_sent := Some "1s" |}
              {| stop_is_set := false; gui := [AssignByExe 3 game_path];
                 system := system_showing 11 game_path |} []
              sample_lower_idempotent R Np Nn eq_refl eq_refl eq_refl
              eq_refl eq_refl eq_refl)
    as [log [rest [k [port [E [Rc [Rk [P [Sp _]]]]]]]]].
  exists log, rest, k, port.
  split; [exact E|split; [exact Rc|split; [exact Rk|split; [exact P|exact Sp]]]].
Defined.

Lemma loaded_profile_is_matched_witness :
  (1 <= 2 <= 4)%Z /\
  exists k port,
    match_slot
      (@load_profile sample_library initial_profiles 2
         {| cfg_exe_name := Some "Editor.EXE";
            cfg_exe_path := Some editor_path |})
      (Some "editor.exe") = Some k /\
    (1 <= k <= 2)%Z /\
    select_port
      (@load_profile sample_library initial_profiles 2
         {| cfg_exe_name := Some "Editor.EXE";
            cfg_exe_path := Some editor_path |})
      (Some "editor.exe") = Some port.
Proof.
  assert (1 <= 2 <= 4)%Z as R by lia.
  split; [exact R|].
  assert ("Editor.EXE" <> "") as Ns by discriminate.
  assert (editor_path <> "") as Np by discriminate.
  assert (lower_ascii "Editor.EXE" <> "") as Nl by discriminate.
  exact (proj2 (@loaded_profile_is_matched sample_library [] 2
                  {| cfg_exe_name := Some "Editor.EXE";
                     cfg_exe_path := Some editor_path |}
                  "Editor.EXE" editor_path R eq_refl eq_refl Ns Np Nl)).
Defined.
